(** * Hibiki: emotion-matched music sequencing (music_generator.py)

    A shallow embedding of [find_closest_music], [create_music_sequence]
    and the mixing step of [main], with the properties of the design
    document checked against it.

    Python [float] is IEEE 754 binary64; it is modelled by Rocq's primitive
    [float], whose operations are specified by [FloatAxioms].  Python [int]
    is [Z].  A [dict] iterated in insertion order is an association list; a
    [set] of strings is a [gset string]; the dict of decoded clips is a
    [gmap string AudioSegment]. *)

From Stdlib Require Import ZArith List Bool Lia Floats.
From stdpp Require Import base option list gmap sets strings.
Import ListNotations.

Local Open Scope Z_scope.

(** ** Outcomes of Python code *)

(** The exceptions the modelled code can raise. *)
Inductive exn : Type :=
  | OverflowError   (* float ** 2 out of range, int(inf) *)
  | ValueError      (* int(nan), pydub: crossfade longer than a segment *)
  | TypeError       (* pydub: a fade of duration 0 subtracts from None *)
  | InvalidDuration (* pydub: a fade of negative duration *)
.

(** A Python computation returns, raises, or (for a [while] loop run with
    bounded fuel) has not finished yet. *)
Inductive outcome (A : Type) : Type :=
  | Ok (a : A)
  | Raise (e : exn)
  | OutOfFuel.
Arguments Ok {A} a.
Arguments Raise {A} e.
Arguments OutOfFuel {A}.

#[global] Instance outcome_ret : MRet outcome := fun A a => Ok a.
#[global] Instance outcome_bind : MBind outcome := fun A B k m =>
  match m with
  | Ok a => k a
  | Raise e => Raise e
  | OutOfFuel => OutOfFuel
  end.

(** ** Python numbers *)

(** A float that is neither NaN nor an infinity. *)
Definition is_finite (x : float) : bool :=
  negb (PrimFloat.is_nan x) && negb (PrimFloat.is_infinity x).

(** A float that is a number: not NaN. *)
Definition is_num (x : float) : Prop := PrimFloat.leb x x = true.

(** Conversion of an [int] to the nearest binary64 (round to nearest even),
    as [float * int] and [float(n)] do. *)
Definition Z2float (n : Z) : float := SF2Prim (binary_normalize prec emax n 0 false).

(** [float(n)] raises OverflowError when [n] is too large for a float. *)
Definition float_of_int (n : Z) : outcome float :=
  let x := Z2float n in
  if PrimFloat.is_infinity x then Raise OverflowError else Ok x.

(** The integer part of a finite float, rounded toward zero. *)
Definition trunc (x : float) : Z :=
  match Prim2SF x with
  | S754_finite s m e =>
      let a := Z.shiftl (Z.pos m) e in if s then - a else a
  | _ => 0
  end.

(** [int(x)]: truncation toward zero; ValueError on NaN, OverflowError on
    an infinity. *)
Definition py_int (x : float) : outcome Z :=
  if PrimFloat.is_nan x then Raise ValueError
  else if PrimFloat.is_infinity x then Raise OverflowError
  else Ok (trunc x).

(** [x ** 2] on floats: the product, with OverflowError when a finite [x]
    has a square out of range (an infinite or NaN [x] gives an infinite or
    NaN square without an exception). *)
Definition py_pow2 (x : float) : outcome float :=
  let r := PrimFloat.mul x x in
  if is_finite x && PrimFloat.is_infinity r then Raise OverflowError else Ok r.

(** ** Data model *)

(** [{'valence': v, 'arousal': a}] *)
Record EmotionPoint : Type := { valence : float; arousal : float }.

(** An entry of [text_emotions['paragraphs']]. *)
Record Paragraph : Type := {
  emotions : EmotionPoint;
  proportion_start : float;   (* paragraph['proportion']['start'] *)
  proportion_end : float;     (* paragraph['proportion']['end'] *)
}.

(** [music_library]: a dict from file name to emotion values, as the list
    of its items in iteration (insertion) order. *)
Definition MusicLibrary : Type := list (string * EmotionPoint).

(** ** find_closest_music *)

(** [np.sqrt((tv - mv)**2 + (ta - ma)**2)] *)
Definition distance (target music_emotions : EmotionPoint) : outcome float :=
  dv ← py_pow2 (PrimFloat.sub (valence target) (valence music_emotions));
  da ← py_pow2 (PrimFloat.sub (arousal target) (arousal music_emotions));
  Ok (PrimFloat.sqrt (PrimFloat.add dv da)).

(** The [for] loop of [find_closest_music], with its two local variables
    [min_distance] and [closest_music] as accumulators. *)
Fixpoint find_closest_loop (target : EmotionPoint) (items : MusicLibrary)
    (used_music : gset string) (min_distance : float)
    (closest_music : option string) : outcome (option string) :=
  match items with
  | [] => Ok closest_music
  | (music_file, music_emotions) :: rest =>
      if decide (music_file ∈ used_music) then
        find_closest_loop target rest used_music min_distance closest_music
      else
        d ← distance target music_emotions;
        if PrimFloat.ltb d min_distance then
          find_closest_loop target rest used_music d (Some music_file)
        else
          find_closest_loop target rest used_music min_distance closest_music
  end.

Definition find_closest_music (emotions : EmotionPoint)
    (music_library : MusicLibrary) (used_music : gset string)
    : outcome (option string) :=
  find_closest_loop emotions music_library used_music infinity None.

(** ** Planned durations (lines 59-65 of create_music_sequence) *)

(** [int((end_proportion - start_proportion) * total_duration)] *)
Definition raw_duration (paragraph : Paragraph) (total_duration : Z) : outcome Z :=
  t ← float_of_int total_duration;
  py_int (PrimFloat.mul
            (PrimFloat.sub (proportion_end paragraph) (proportion_start paragraph)) t).

(** The duration of paragraph [i]: every paragraph but the first gets the
    crossfade length added. *)
Definition planned_duration (i : nat) (paragraph : Paragraph)
    (total_duration crossfade_duration : Z) : outcome Z :=
  duration ← raw_duration paragraph total_duration;
  Ok (if (0 <? i)%nat then duration + crossfade_duration else duration).

(** ** AudioSegment

    pydub's [AudioSegment], at the granularity its interface has: lengths
    and positions are whole milliseconds, so a segment is the list of its
    one-millisecond chunks.  What a chunk holds, and the arithmetic on its
    samples, is an interface. *)

Class AudioOps (Sample : Type) : Type := {
  silence : Sample;                           (* a chunk of zero samples *)
  audioop_mul : float -> Sample -> Sample;    (* scale by a linear factor *)
  audioop_add : Sample -> Sample -> Sample;   (* mix two chunks *)
  gain : float -> Sample -> Sample;           (* scale by db_to_float(db) *)
}.

Module Audio.
Section Ops.
Context {Sample : Type} `{AudioOps Sample}.

(** An [AudioSegment] is a [list Sample]. *)

(** [len(seg)], in milliseconds. *)
Definition len (seg : list Sample) : Z := Z.of_nat (length seg).

(** [AudioSegment.silent(duration=d)]; a negative [d] gives no data. *)
Definition silent (d : Z) : list Sample := replicate (Z.to_nat d) silence.

(** [seg[:d]].  A stop beyond the end is clipped to the end; a negative
    stop counts from the end, first by pydub and, when still negative, by
    the slice of the underlying bytes. *)
Definition prefix (seg : list Sample) (d : Z) : list Sample :=
  let stop := if d <? 0 then len seg + d else Z.min d (len seg) in
  let stop := if stop <? 0 then Z.max 0 (len seg + stop) else stop in
  take (Z.to_nat stop) seg.

(** A linear ramp of the amplitude over a whole chunk list, from
    [from_power] to [to_power]: chunk [i] of [n] is scaled by
    [from_power + (to_power - from_power) / n * i]. *)
Definition ramp (from_power to_power : float) (seg : list Sample) : list Sample :=
  let step := PrimFloat.div (PrimFloat.sub to_power from_power) (Z2float (len seg)) in
  imap (fun i s =>
          audioop_mul (PrimFloat.add from_power (PrimFloat.mul step (Z2float (Z.of_nat i)))) s)
       seg.

(** The factor a fade starts from or ends at: -120 dB, 10 ** -6. *)
Definition faded : float := PrimFloat.div 1%float 1000000%float.

(** [data[s:e]] on the chunks, as Python slices the bytes of a segment:
    a negative index counts from the end, and an index out of range is
    clipped to the data. *)
Definition py_slice (seg : list Sample) (s e : Z) : list Sample :=
  let norm x := if x <? 0 then Z.max 0 (len seg + x) else Z.min x (len seg) in
  drop (Z.to_nat (norm s)) (take (Z.to_nat (norm e)) seg).

(** pydub's [_parse_position]: a negative position counts from the end. *)
Definition parse_position (seg : list Sample) (v : Z) : Z :=
  if v <? 0 then len seg + v else v.

(** [seg[m]] for an integer [m]: the data from position [m] to position
    [m + 1], both parsed; out of range it is a segment without data. *)
Definition getitem (seg : list Sample) (m : Z) : list Sample :=
  py_slice seg (parse_position seg m) (parse_position seg (m + 1)).

(** [seg.get_frame(k)], a slice of the bytes.  The model has one frame to
    the chunk. *)
Definition get_frame (seg : list Sample) (k : Z) : list Sample :=
  py_slice seg k (k + 1).

(** The factor of step [i] of a fade:
    [from_power + (gain_delta / duration) * i]. *)
Definition volume_change (from_power gain_delta : float) (duration : Z) (i : nat) : float :=
  PrimFloat.add from_power
    (PrimFloat.mul (PrimFloat.div gain_delta (Z2float duration)) (Z2float (Z.of_nat i))).

(** The loop of pydub's [fade]: step [i] of [duration] fetches the data at
    [start + i] and scales it by its factor.  A fade longer than 100 ms
    fetches milliseconds ([seg[start + i]]); a shorter one steps frame by
    frame ([get_frame]), which the model takes at one frame to the chunk. *)
Definition fade_steps (from_power gain_delta : float) (start duration : Z)
    (seg : list Sample) : list Sample :=
  let fetch := if duration >? 100 then getitem seg else get_frame seg in
  flat_map (fun i : nat =>
              map (audioop_mul (volume_change from_power gain_delta duration i))
                  (fetch (start + Z.of_nat i)))
           (seq 0 (Z.to_nat duration)).

(** What [fade] does with its [duration] before it builds any data: a
    negative one raises InvalidDuration; a zero one is taken as absent and
    recomputed as [end - start], one of which is None for [fade_in] and
    for [fade_out]: TypeError. *)
Definition fade_check (d : Z) : outcome unit :=
  if d <? 0 then Raise InvalidDuration
  else if d =? 0 then Raise TypeError
  else Ok tt.

(** Modelled from the spec: the data [seg.fade_in(d)] builds for [0 < d],
    pydub code that is not part of the repository:
    [fade(from_gain=-120, duration=d, start=0)].  Nothing before the fade,
    the [d] steps from position 0 (those past the end fetch no data), then
    [seg[d:]] unchanged. *)
Definition fade_in (d : Z) (seg : list Sample) : list Sample :=
  fade_steps faded (PrimFloat.sub 1%float faded) 0 d seg ++ drop (Z.to_nat d) seg.

(** Modelled from the spec: the data [seg.fade_out(d)] builds for [0 < d],
    pydub code that is not part of the repository:
    [fade(to_gain=-120, duration=d, end=float('inf'))].  The end is
    [len(seg)] and the start [len(seg) - d]: [seg[:start]] unchanged, then
    the [d] steps from [start], then [seg[len(seg):]], which is empty.  A
    [d] beyond [len(seg)] makes [start] negative: the slice and the steps
    then count from the end, and the result is longer than [seg]. *)
Definition fade_out (d : Z) (seg : list Sample) : list Sample :=
  let start := len seg - d in
  prefix seg start ++ fade_steps 1%float (PrimFloat.sub faded 1%float) start d seg.

(** The calls [seg.fade_in(d)] and [seg.fade_out(d)]: the check of the
    duration, then the data. *)
Definition call_fade_in (d : Z) (seg : list Sample) : outcome (list Sample) :=
  _ ← fade_check d; Ok (fade_in d seg).

Definition call_fade_out (d : Z) (seg : list Sample) : outcome (list Sample) :=
  _ ← fade_check d; Ok (fade_out d seg).

(** [seg1.append(seg2, crossfade=c)].  Without a crossfade the data are
    concatenated; a crossfade longer than either segment is refused with
    ValueError; otherwise the last [c] ms of [seg1], fading out, are mixed
    with the first [c] ms of [seg2], fading in.  ([c] is a length: the
    model covers [0 <= c].) *)
Definition append (seg1 seg2 : list Sample) (crossfade : Z) : outcome (list Sample) :=
  if crossfade =? 0 then Ok (seg1 ++ seg2)
  else if crossfade >? len seg1 then Raise ValueError
  else if crossfade >? len seg2 then Raise ValueError
  else
    let keep := Z.to_nat (len seg1 - crossfade) in
    let c := Z.to_nat crossfade in
    let xf := zip_with audioop_add (ramp 1%float faded (drop keep seg1))
                           (ramp faded 1%float (take c seg2)) in
    Ok (take keep seg1 ++ xf ++ drop c seg2).

(** [seg1 + seg2] on two segments is [append] without a crossfade. *)
Definition concat (seg1 seg2 : list Sample) : list Sample := seg1 ++ seg2.

(** [seg + db] on a segment and a number is [apply_gain]. *)
Definition apply_gain (seg : list Sample) (db : float) : list Sample :=
  map (gain db) seg.

(** [seg1.overlay(seg2)]: [seg2] mixed into [seg1] from position 0, cut
    at the end of [seg1]; the result is as long as [seg1]. *)
Definition overlay (seg1 seg2 : list Sample) : list Sample :=
  let n := Nat.min (length seg1) (length seg2) in
  zip_with audioop_add (take n seg1) (take n seg2) ++ drop n seg1.

(** [while len(seg) < duration: seg = seg + seg], run for at most [fuel]
    iterations. *)
Fixpoint loop_extend (fuel : nat) (seg : list Sample) (duration : Z)
    : outcome (list Sample) :=
  if len seg <? duration then
    match fuel with
    | O => OutOfFuel
    | S fuel' => loop_extend fuel' (concat seg seg) duration
    end
  else Ok seg.

End Ops.
End Audio.

(** ** create_music_sequence *)

Section Sequence.
Context {Sample : Type} `{AudioOps Sample}.
Import Audio.

(** The decoded wav files of the [music_library] directory, by file name:
    [os.path.exists] and [AudioSegment.from_wav] together. *)
Definition FileSystem : Type := gmap string (list Sample).

(** Lines 44-48: the clips of the library whose file exists. *)
Definition load_music_files (music_library : MusicLibrary) (fs : FileSystem)
    : gmap string (list Sample) :=
  foldl (fun music_files item =>
           match fs !! item.1 with
           | Some audio => <[item.1 := audio]> music_files
           | None => music_files
           end) ∅ music_library.

(** The variables the paragraph loop updates: the set [used_music] and
    the list [music_segments]; [selected] records, for each segment
    appended, the paragraph index, the clip (line 79 prints it) and the
    planned duration (line 68 prints it). *)
Record plan_state : Type := {
  used_music : gset string;
  music_segments : list (list Sample);
  selected : list (nat * string * Z);
}.

Definition initial_state : plan_state :=
  {| used_music := ∅; music_segments := []; selected := [] |}.

(** One iteration of the paragraph loop (lines 58-90). *)
Definition process_paragraph (fuel : nat) (music_library : MusicLibrary)
    (music_files : gmap string (list Sample))
    (total_duration crossfade_duration : Z)
    (i : nat) (paragraph : Paragraph) (st : plan_state) : outcome plan_state :=
  duration ← planned_duration i paragraph total_duration crossfade_duration;
  closest_music ← find_closest_music (emotions paragraph) music_library (used_music st);
  match closest_music with
  | None => Ok st                      (* None is not in music_files: continue *)
  | Some music_file =>
      match music_files !! music_file with
      | None => Ok st                  (* continue *)
      | Some music_segment =>
          looped ← loop_extend fuel music_segment duration;
          Ok {| used_music := {[music_file]} ∪ used_music st;
                music_segments := music_segments st ++ [prefix looped duration];
                selected := selected st ++ [(i, music_file, duration)] |}
      end
  end.

(** The loop over [enumerate(text_emotions['paragraphs'])], from index [i]. *)
Fixpoint process_paragraphs (fuel : nat) (music_library : MusicLibrary)
    (music_files : gmap string (list Sample))
    (total_duration crossfade_duration : Z)
    (i : nat) (paragraphs : list Paragraph) (st : plan_state) : outcome plan_state :=
  match paragraphs with
  | [] => Ok st
  | paragraph :: rest =>
      st' ← process_paragraph fuel music_library music_files
              total_duration crossfade_duration i paragraph st;
      process_paragraphs fuel music_library music_files
        total_duration crossfade_duration (S i) rest st'
  end.

(** Lines 99-102: the segments after the first are appended in turn. *)
Fixpoint join (final_audio : list Sample) (segments : list (list Sample))
    (crossfade_duration : Z) : outcome (list Sample) :=
  match segments with
  | [] => Ok final_audio
  | segment :: rest =>
      final_audio' ← append final_audio segment crossfade_duration;
      join final_audio' rest crossfade_duration
  end.

(** Lines 108-115: trim to, or pad with silence up to, the target length. *)
Definition adjust (final_audio : list Sample) (total_duration : Z) : list Sample :=
  if len final_audio >? total_duration then prefix final_audio total_duration
  else if len final_audio <? total_duration then
    concat final_audio (silent (total_duration - len final_audio))
  else final_audio.

(** Lines 93-122: the assembly of the prepared segments. *)
Definition assemble (music_segments : list (list Sample))
    (total_duration crossfade_duration fade_duration : Z) : outcome (list Sample) :=
  match music_segments with
  | [] => Ok (silent total_duration)
  | first :: rest =>
      final_audio ← join first rest crossfade_duration;
      final_audio ← call_fade_in fade_duration (adjust final_audio total_duration);
      call_fade_out fade_duration final_audio
  end.

Definition create_music_sequence (fuel : nat) (text_emotions : list Paragraph)
    (music_library : MusicLibrary) (fs : FileSystem)
    (total_duration crossfade_duration fade_duration : Z) : outcome (list Sample) :=
  let music_files := load_music_files music_library fs in
  st ← process_paragraphs fuel music_library music_files
         total_duration crossfade_duration 0 text_emotions initial_state;
  assemble (music_segments st) total_duration crossfade_duration fade_duration.

(** ** The mixing step of main *)

(** [np.log10]: the special values are those of IEEE 754 (NaN for NaN and
    for a negative argument, minus infinity for a zero, plus infinity for
    plus infinity); on the positive finite floats it is [log10_pos], the
    logarithm of the platform. *)
Definition np_log10 (log10_pos : float -> float) (x : float) : float :=
  if PrimFloat.is_nan x then nan
  else if PrimFloat.is_zero x then neg_infinity
  else if PrimFloat.ltb x 0%float then nan
  else if PrimFloat.is_infinity x then infinity
  else log10_pos x.

(** Lines 171-172: [20 * np.log10(volume)]. *)
Definition volume_to_db (log10_pos : float -> float) (volume : float) : float :=
  PrimFloat.mul 20%float (np_log10 log10_pos volume).

(** Lines 156-162: the ambient sound cut or looped to 60 seconds. *)
Definition fit_ambient (fuel : nat) (ambient_sound : list Sample) : outcome (list Sample) :=
  if len ambient_sound >? 60000 then Ok (prefix ambient_sound 60000)
  else if len ambient_sound <? 60000 then
    looped ← loop_extend fuel ambient_sound 60000;
    Ok (prefix looped 60000)
  else Ok ambient_sound.

(** Lines 153-179: the chosen ambient sound is fitted, faded, and overlaid
    on the music, each at its gain. *)
Definition mix (fuel : nat) (log10_pos : float -> float)
    (final_audio ambient_sound : list Sample)
    (ambient_volume music_volume : float) : outcome (list Sample) :=
  ambient_sound ← fit_ambient fuel ambient_sound;
  ambient_sound ← call_fade_in 3000 ambient_sound;
  ambient_sound ← call_fade_out 3000 ambient_sound;
  let ambient_db := volume_to_db log10_pos ambient_volume in
  let music_db := volume_to_db log10_pos music_volume in
  let final_audio := apply_gain final_audio music_db in
  let ambient_sound := apply_gain ambient_sound ambient_db in
  Ok (overlay final_audio ambient_sound).

(** The two files [main] writes. *)
Record exported : Type := {
  generated_music : list Sample;      (* generated_music.wav *)
  final_output_audio : list Sample;   (* final_output_audio.wav *)
}.

(** [main]: [ambience] is the content of the wav files of the ambience
    folder, [choice] the index [random.choice] draws. *)
Definition main (fuel : nat) (log10_pos : float -> float)
    (text_emotions : list Paragraph) (music_library : MusicLibrary)
    (fs : FileSystem) (ambience : list (list Sample)) (choice : nat)
    (ambient_volume music_volume : float) : outcome exported :=
  final_audio ← create_music_sequence fuel text_emotions music_library fs 60000 5000 3000;
  match ambience !! (choice `mod` length ambience)%nat with
  | Some ambient_sound =>
      mixed_audio ← mix fuel log10_pos final_audio ambient_sound
                      ambient_volume music_volume;
      Ok {| generated_music := final_audio; final_output_audio := mixed_audio |}
  | None =>
      Ok {| generated_music := final_audio; final_output_audio := final_audio |}
  end.

End Sequence.

(** ** Chunks as terms

    The free instance of the chunk interface: a chunk is the term that
    says how it was computed from the milliseconds of the decoded clips.
    It runs the model on concrete inputs. *)

Inductive chunk : Type :=
  | Silent
  | Clip (file : string) (ms : nat)          (* millisecond [ms] of a file *)
  | Scaled (factor : float) (c : chunk)
  | Mixed (c1 c2 : chunk)
  | Gained (db : float) (c : chunk).

#[global] Instance chunk_ops : AudioOps chunk :=
  {| silence := Silent; audioop_mul := Scaled; audioop_add := Mixed; gain := Gained |}.

(** The decoded content of a file [n] milliseconds long. *)
Definition clip (file : string) (n : nat) : list chunk := map (Clip file) (seq 0 n).

(** * Statements

    The predicates the properties are stated with, and the inputs the
    model is run on. *)

(** ** Predicates *)

(** An item is a candidate unless its name is in the exclusion set. *)
Definition excluded (used : gset string) (item : string * EmotionPoint) : bool :=
  bool_decide (item.1 ∈ used).

(** The distance of an item is computed without an exception and is
    finite: neither NaN nor an infinity. *)
Definition finite_distance (target : EmotionPoint) (item : string * EmotionPoint) : bool :=
  match distance target item.2 with
  | Ok d => PrimFloat.ltb d infinity
  | _ => false
  end.

(** Every candidate of the library has a finite distance to the target. *)
Definition finite_distances (target : EmotionPoint) (used : gset string)
    (items : MusicLibrary) : bool :=
  forallb (fun item => excluded used item || finite_distance target item) items.

(** [d] is the least distance of the candidates among [items], and the
    candidates before position [k] are strictly farther. *)
Definition nearest_first (target : EmotionPoint) (used : gset string)
    (items : MusicLibrary) (k : nat) (d : float) : Prop :=
  forall (j : nat) (music_file : string) (e : EmotionPoint) (d' : float),
    items !! j = Some (music_file, e) -> music_file ∉ used ->
    distance target e = Ok d' ->
    PrimFloat.leb d d' = true /\ ((j < k)%nat -> PrimFloat.ltb d d' = true).

(** No candidate among [items] is nearer than [bound]. *)
Definition none_below (target : EmotionPoint) (used : gset string)
    (items : MusicLibrary) (bound : float) : Prop :=
  forall (j : nat) (music_file : string) (e : EmotionPoint) (d : float),
    items !! j = Some (music_file, e) -> music_file ∉ used ->
    distance target e = Ok d -> PrimFloat.leb bound d = true.

(** A finite float is exactly [num / den], a fraction of integers. *)
Definition float_num (x : float) : Z :=
  match Prim2SF x with
  | S754_finite s m e => (if s then - Z.pos m else Z.pos m) * 2 ^ Z.max 0 e
  | _ => 0
  end.

Definition float_den (x : float) : Z :=
  match Prim2SF x with
  | S754_finite _ _ e => 2 ^ Z.max 0 (- e)
  | _ => 1
  end.

(** The nearest integer (ties away from zero) of a finite float: what the
    design document's [round] computes.  Used only to compare the document
    with [raw_duration]. *)
Definition spec_round (x : float) : Z :=
  match Prim2SF x with
  | S754_finite s m e =>
      let a := if 0 <=? e then Z.shiftl (Z.pos m) e
               else (2 * Z.pos m + 2 ^ (- e)) / 2 ^ (1 - e) in
      if s then - a else a
  | _ => 0
  end.

(** The paragraph indices and the clip names of the appended segments. *)
Definition indices {Sample : Type} (st : plan_state (Sample := Sample)) : list nat :=
  (selected st).*1.*1.
Definition clips {Sample : Type} (st : plan_state (Sample := Sample)) : list string :=
  (selected st).*1.*2.

(** Every planned duration, from paragraph index [i] on, is computed and
    is at least the crossfade length. *)
Fixpoint plans_fit (total_duration crossfade_duration : Z) (i : nat)
    (paragraphs : list Paragraph) : bool :=
  match paragraphs with
  | [] => true
  | paragraph :: rest =>
      match planned_duration i paragraph total_duration crossfade_duration with
      | Ok duration => crossfade_duration <=? duration
      | _ => false
      end && plans_fit total_duration crossfade_duration (S i) rest
  end.

(** The distance of a paragraph to a clip of the library is computed: no
    square overflows. *)
Definition distance_computed (paragraph : Paragraph) (item : string * EmotionPoint) : bool :=
  match distance (emotions paragraph) item.2 with
  | Ok _ => true
  | _ => false
  end.

Definition distances_computed (paragraphs : list Paragraph)
    (music_library : MusicLibrary) : bool :=
  forallb (fun paragraph => forallb (distance_computed paragraph) music_library) paragraphs.

(** Every segment of the state is at least as long as the crossfade. *)
Definition segments_fit {Sample : Type} (crossfade_duration : Z)
    (st : plan_state (Sample := Sample)) : Prop :=
  Forall (fun segment => crossfade_duration <= Audio.len segment) (music_segments st).

(** The sum of a list of integers. *)
Definition sumZ (l : list Z) : Z := foldr Z.add 0 l.

(** [seg] repeats [source] from its start: chunk [j] of [seg] is chunk
    [j mod len(source)] of [source]. *)
Definition cyclic {Sample : Type} (source seg : list Sample) : Prop :=
  forall j : nat, (j < length seg)%nat -> seg !! j = source !! (j mod length source)%nat.

(** The segment appended for an entry of [selected]: the entry names a
    paragraph with that planned duration and a loaded clip; the segment is
    the clip repeated, and has the planned duration when it is not
    negative. *)
Definition prepared {Sample : Type} (music_files : gmap string (list Sample))
    (paragraphs : list Paragraph) (total_duration crossfade_duration : Z)
    (segment : list Sample) (entry : nat * string * Z) : Prop :=
  exists paragraph source,
    paragraphs !! entry.1.1 = Some paragraph /\
    planned_duration entry.1.1 paragraph total_duration crossfade_duration = Ok entry.2 /\
    music_files !! entry.1.2 = Some source /\
    cyclic source segment /\
    (0 <= entry.2 -> Audio.len segment = entry.2).

(** The raw duration of every paragraph is computed. *)
Definition durations_computed (total_duration : Z) (paragraphs : list Paragraph) : bool :=
  forallb (fun paragraph =>
             match raw_duration paragraph total_duration with
             | Ok _ => true
             | _ => false
             end) paragraphs.

(** ** Inputs *)

(** The two halves of a track. *)
Definition first_half : Paragraph :=
  {| emotions := {| valence := 0; arousal := 0 |};
     proportion_start := 0; proportion_end := 0.5 |}.

Definition second_half : Paragraph :=
  {| emotions := {| valence := 0; arousal := 0 |};
     proportion_start := 0.5; proportion_end := 1 |}.

(** The last quarter of a track. *)
Definition last_quarter : Paragraph :=
  {| emotions := {| valence := 0; arousal := 0 |};
     proportion_start := 0.75; proportion_end := 1 |}.

(** The paragraph [0.2, 0.3): the two bounds are the floats nearest to
    0.2 and 0.3, as a JSON parser reads them. *)
Definition third_tenth : Paragraph :=
  {| emotions := {| valence := 0; arousal := 0 |};
     proportion_start := PrimFloat.div 1 5; proportion_end := PrimFloat.div 3 10 |}.



(** A library of two clips. *)
Definition library_ab : MusicLibrary :=
  [("a.wav"%string, {| valence := 0; arousal := 0 |});
   ("b.wav"%string, {| valence := 1; arousal := 1 |})].

(** The loaded clips when the file of [a.wav] does not exist and [b.wav]
    is 4 ms long. *)
Definition files_b : gmap string (list chunk) :=
  load_music_files library_ab {[ "b.wav"%string := clip "b.wav" 4 ]}.

(** The loaded clips when both files exist, 3 and 4 ms long. *)
Definition files_ab : gmap string (list chunk) :=
  load_music_files library_ab
    {[ "a.wav"%string := clip "a.wav" 3; "b.wav"%string := clip "b.wav" 4 ]}.

(** Two decoded files, 3 and 4 ms long. *)
Definition fs_ab : gmap string (list chunk) :=
  {[ "a.wav"%string := clip "a.wav" 3; "b.wav"%string := clip "b.wav" 4 ]}.

(** * Properties *)

(** ** Floating point: the order on binary64 *)

Module F.

Lemma SFltb_trans (x y z : spec_float) :
  SFltb x y = true -> SFltb y z = true -> SFltb x z = true.
Proof.
  unfold SFltb.
  destruct x as [[]|[]| |[] mx ex], y as [[]|[]| |[] my ey], z as [[]|[]| |[] mz ez];
    simpl; try congruence;
    change (Pos.compare_cont Eq) with Pos.compare;
    repeat match goal with
           | |- context [Z.compare ?a ?b] => destruct (Z.compare_spec a b)
           | |- context [Pos.compare ?a ?b] => destruct (Pos.compare_spec a b)
           end; simpl; try congruence; try lia.
Qed.

Lemma SFltb_leb_trans (x y z : spec_float) :
  SFltb x y = true -> SFleb y z = true -> SFltb x z = true.
Proof.
  unfold SFltb, SFleb.
  destruct x as [[]|[]| |[] mx ex], y as [[]|[]| |[] my ey], z as [[]|[]| |[] mz ez];
    simpl; try congruence;
    change (Pos.compare_cont Eq) with Pos.compare;
    repeat match goal with
           | |- context [Z.compare ?a ?b] => destruct (Z.compare_spec a b)
           | |- context [Pos.compare ?a ?b] => destruct (Pos.compare_spec a b)
           end; simpl; try congruence; try lia.
Qed.

Lemma SFltb_false_leb (x y : spec_float) :
  SFleb x x = true -> SFleb y y = true ->
  SFltb x y = false -> SFleb y x = true.
Proof.
  unfold SFltb, SFleb.
  destruct x as [[]|[]| |[] mx ex], y as [[]|[]| |[] my ey];
    simpl; try congruence;
    change (Pos.compare_cont Eq) with Pos.compare;
    repeat match goal with
           | |- context [Z.compare ?a ?b] => destruct (Z.compare_spec a b)
           | |- context [Pos.compare ?a ?b] => destruct (Pos.compare_spec a b)
           end; simpl; try congruence; try lia.
Qed.

Lemma SFltb_leb (x y : spec_float) : SFltb x y = true -> SFleb x y = true.
Proof. unfold SFltb, SFleb. destruct (SFcompare x y) as [[]|]; congruence. Qed.

Lemma SFltb_num_l (x y : spec_float) : SFltb x y = true -> SFleb x x = true.
Proof.
  unfold SFltb, SFleb.
  destruct x as [[]|[]| |[] mx ex], y as [[]|[]| |[] my ey];
    simpl; try congruence; intros _;
    rewrite Z.compare_refl; change (Pos.compare_cont Eq) with Pos.compare;
    rewrite Pos.compare_refl; reflexivity.
Qed.

Lemma SFleb_ltb_false (x y : spec_float) :
  SFleb y x = true -> SFltb x y = false.
Proof.
  unfold SFltb, SFleb.
  destruct x as [[]|[]| |[] mx ex], y as [[]|[]| |[] my ey];
    simpl; try congruence;
    change (Pos.compare_cont Eq) with Pos.compare;
    repeat match goal with
           | |- context [Z.compare ?a ?b] => destruct (Z.compare_spec a b)
           | |- context [Pos.compare ?a ?b] => destruct (Pos.compare_spec a b)
           end; simpl; try congruence; try lia.
Qed.

(** The same facts on primitive floats. *)

Lemma ltb_trans (x y z : float) :
  PrimFloat.ltb x y = true -> PrimFloat.ltb y z = true -> PrimFloat.ltb x z = true.
Proof. rewrite !ltb_spec. apply SFltb_trans. Qed.

Lemma ltb_leb_trans (x y z : float) :
  PrimFloat.ltb x y = true -> PrimFloat.leb y z = true -> PrimFloat.ltb x z = true.
Proof. rewrite !ltb_spec, leb_spec. apply SFltb_leb_trans. Qed.

Lemma ltb_false_leb (x y : float) :
  is_num x -> is_num y -> PrimFloat.ltb x y = false -> PrimFloat.leb y x = true.
Proof. unfold is_num. rewrite ltb_spec, !leb_spec. apply SFltb_false_leb. Qed.

Lemma ltb_leb (x y : float) : PrimFloat.ltb x y = true -> PrimFloat.leb x y = true.
Proof. rewrite ltb_spec, leb_spec. apply SFltb_leb. Qed.

Lemma ltb_num_l (x y : float) : PrimFloat.ltb x y = true -> is_num x.
Proof. unfold is_num. rewrite ltb_spec, leb_spec. apply SFltb_num_l. Qed.

Lemma leb_ltb_false (x y : float) :
  PrimFloat.leb y x = true -> PrimFloat.ltb x y = false.
Proof. rewrite ltb_spec, leb_spec. apply SFleb_ltb_false. Qed.

Lemma infinity_num : is_num infinity.
Proof. reflexivity. Qed.

End F.

(** ** The matcher *)

Section Matcher.
Variable target : EmotionPoint.
Variable used : gset string.

Lemma none_below_skip (f : string) (e : EmotionPoint) (rest : MusicLibrary) (bound : float) :
  f ∈ used -> none_below target used rest bound -> none_below target used ((f, e) :: rest) bound.
Proof.
  intros Hin Hrest [|j] g e' d' Hj Hg Hd'.
  - simpl in Hj. injection Hj as <- <-. contradiction.
  - exact (Hrest j g e' d' Hj Hg Hd').
Qed.

Lemma none_below_cons (f : string) (e : EmotionPoint) (rest : MusicLibrary)
    (bound d : float) :
  distance target e = Ok d -> PrimFloat.leb bound d = true ->
  none_below target used rest bound -> none_below target used ((f, e) :: rest) bound.
Proof.
  intros Hd Hle Hrest [|j] g e' d' Hj Hg Hd'.
  - simpl in Hj. injection Hj as <- <-. rewrite Hd in Hd'. injection Hd' as <-. exact Hle.
  - exact (Hrest j g e' d' Hj Hg Hd').
Qed.

(** The head of the list is the first nearest candidate when it is a
    number and nothing after it is nearer. *)
Lemma nearest_first_head (f : string) (e : EmotionPoint) (rest : MusicLibrary) (d : float) :
  distance target e = Ok d -> is_num d -> none_below target used rest d ->
  nearest_first target used ((f, e) :: rest) 0 d.
Proof.
  intros Hd Hnum Hrest [|j] g e' d' Hj Hg Hd'.
  - simpl in Hj. injection Hj as <- <-. rewrite Hd in Hd'. injection Hd' as <-.
    split; [exact Hnum|lia].
  - split; [exact (Hrest j g e' d' Hj Hg Hd')|lia].
Qed.

(** The first nearest candidate of the tail is that of the list when the
    head is excluded, or is strictly farther. *)
Lemma nearest_first_skip (f : string) (e : EmotionPoint) (rest : MusicLibrary)
    (k : nat) (d : float) :
  f ∈ used -> nearest_first target used rest k d ->
  nearest_first target used ((f, e) :: rest) (S k) d.
Proof.
  intros Hin Hrest [|j] g e' d' Hj Hg Hd'.
  - simpl in Hj. injection Hj as <- <-. contradiction.
  - destruct (Hrest j g e' d' Hj Hg Hd') as [Hle Hlt]. split; [exact Hle|].
    intros Hjk. apply Hlt. lia.
Qed.

Lemma nearest_first_cons (f : string) (e : EmotionPoint) (rest : MusicLibrary)
    (k : nat) (d d0 : float) :
  distance target e = Ok d0 -> PrimFloat.ltb d d0 = true ->
  nearest_first target used rest k d ->
  nearest_first target used ((f, e) :: rest) (S k) d.
Proof.
  intros Hd0 Hfar Hrest [|j] g e' d' Hj Hg Hd'.
  - simpl in Hj. injection Hj as <- <-. rewrite Hd0 in Hd'. injection Hd' as <-.
    split; [exact (F.ltb_leb _ _ Hfar)|intros _; exact Hfar].
  - destruct (Hrest j g e' d' Hj Hg Hd') as [Hle Hlt]. split; [exact Hle|].
    intros Hjk. apply Hlt. lia.
Qed.

(** What the loop computes from any values of its two variables: either
    no candidate is below [min_distance] and [closest_music] is kept, or
    the result is the first nearest candidate and it is below
    [min_distance]. *)
Lemma find_closest_loop_spec (items : MusicLibrary) :
  forall (min_distance : float) (closest_music : option string),
    is_num min_distance ->
    finite_distances target used items = true ->
    exists r, find_closest_loop target items used min_distance closest_music = Ok r /\
      ((r = closest_music /\ none_below target used items min_distance)
       \/
       (exists k music_file e d,
          r = Some music_file /\ items !! k = Some (music_file, e) /\
          (music_file ∉ used) /\ distance target e = Ok d /\
          PrimFloat.ltb d min_distance = true /\ nearest_first target used items k d)).
Proof.
  induction items as [|[f e] rest IH]; intros m c Hm Hfin.
  - exists c. split; [reflexivity|]. left. split; [reflexivity|].
    intros j ? ? ? Hj. destruct j; discriminate Hj.
  - simpl in Hfin. apply andb_true_iff in Hfin as [Hitem Hrest].
    simpl. destruct (decide (f ∈ used)) as [Hin|Hnin].
    + destruct (IH m c Hm Hrest) as (r & Hr & Hcase). exists r. split; [exact Hr|].
      destruct Hcase as [[-> Hall]|(k & f0 & e0 & d0 & -> & Hk & Hn0 & Hd0 & Hlt & Hnear)].
      * left. split; [reflexivity|]. apply none_below_skip; assumption.
      * right. exists (S k), f0, e0, d0.
        split; [reflexivity|]. split; [exact Hk|]. split; [exact Hn0|].
        split; [exact Hd0|]. split; [exact Hlt|]. apply nearest_first_skip; assumption.
    + unfold excluded in Hitem. simpl in Hitem.
      rewrite bool_decide_eq_false_2 in Hitem by exact Hnin. simpl in Hitem.
      unfold finite_distance in Hitem. simpl in Hitem.
      destruct (distance target e) as [d| |] eqn:Hd; try discriminate Hitem.
      simpl. pose proof (F.ltb_num_l _ _ Hitem) as Hdnum.
      destruct (PrimFloat.ltb d m) eqn:Hdm.
      * destruct (IH d (Some f) Hdnum Hrest) as (r & Hr & Hcase). exists r.
        split; [exact Hr|]. right.
        destruct Hcase as [[-> Hall]|(k & f0 & e0 & d0 & -> & Hk & Hn0 & Hd0 & Hlt & Hnear)].
        -- exists 0%nat, f, e, d.
           split; [reflexivity|]. split; [reflexivity|]. split; [exact Hnin|].
           split; [exact Hd|]. split; [exact Hdm|]. apply nearest_first_head; assumption.
        -- exists (S k), f0, e0, d0.
           split; [reflexivity|]. split; [exact Hk|]. split; [exact Hn0|].
           split; [exact Hd0|]. split; [exact (F.ltb_trans _ _ _ Hlt Hdm)|].
           apply (nearest_first_cons f e rest k d0 d Hd Hlt Hnear).
      * pose proof (F.ltb_false_leb _ _ Hdnum Hm Hdm) as Hmd.
        destruct (IH m c Hm Hrest) as (r & Hr & Hcase). exists r.
        split; [exact Hr|].
        destruct Hcase as [[-> Hall]|(k & f0 & e0 & d0 & -> & Hk & Hn0 & Hd0 & Hlt & Hnear)].
        -- left. split; [reflexivity|]. apply (none_below_cons f e rest m d Hd Hmd Hall).
        -- right. exists (S k), f0, e0, d0.
           split; [reflexivity|]. split; [exact Hk|]. split; [exact Hn0|].
           split; [exact Hd0|]. split; [exact Hlt|].
           apply (nearest_first_cons f e rest k d0 d Hd (F.ltb_leb_trans _ _ _ Hlt Hmd) Hnear).
Qed.

(** Whatever the distances are, the loop never returns an excluded name:
    its result is the initial [closest_music] or a candidate. *)
Lemma find_closest_loop_not_used (items : MusicLibrary) :
  forall min_distance closest_music music_file,
    find_closest_loop target items used min_distance closest_music = Ok (Some music_file) ->
    closest_music = Some music_file \/
    ((music_file ∉ used) /\ music_file ∈ items.*1).
Proof.
  induction items as [|[f e] rest IH]; intros m c g Hr; simpl in Hr.
  - left. congruence.
  - destruct (decide (f ∈ used)) as [Hin|Hnin].
    + destruct (IH _ _ _ Hr) as [->|[? ?]]; [left; reflexivity|right].
      split; [assumption|]. simpl. apply elem_of_cons. right. assumption.
    + destruct (distance target e) as [d| |]; simpl in Hr; try discriminate Hr.
      destruct (PrimFloat.ltb d m).
      * destruct (IH _ _ _ Hr) as [Heq|[? ?]].
        -- injection Heq as <-. right. split; [assumption|]. simpl.
           apply elem_of_cons. left. reflexivity.
        -- right. split; [assumption|]. simpl. apply elem_of_cons. right. assumption.
      * destruct (IH _ _ _ Hr) as [->|[? ?]]; [left; reflexivity|right].
        split; [assumption|]. simpl. apply elem_of_cons. right. assumption.
Qed.

End Matcher.

Lemma find_closest_music_not_used target music_library used music_file :
  find_closest_music target music_library used = Ok (Some music_file) ->
  (music_file ∉ used) /\ music_file ∈ music_library.*1.
Proof.
  intros Hr. apply find_closest_loop_not_used in Hr as [Hr|Hr]; [discriminate Hr|exact Hr].
Qed.

(** C1, as amended: for every target, library and exclusion set on which
    each candidate (each item whose name is not excluded) has a finite
    computed distance, [find_closest_music] returns without an exception;
    it returns [None] exactly when every item is excluded (an empty library
    included); and a returned name is a candidate whose distance is at most
    that of every candidate, strictly less than that of every candidate met
    before it in the iteration order (on a tie the first met wins). *)
Theorem find_closest_music_nearest (target : EmotionPoint)
    (music_library : MusicLibrary) (used : gset string) :
  finite_distances target used music_library = true ->
  exists r, find_closest_music target music_library used = Ok r /\
    (r = None <-> forall item, item ∈ music_library -> item.1 ∈ used) /\
    (forall music_file, r = Some music_file ->
       exists k e d, music_library !! k = Some (music_file, e) /\
         (music_file ∉ used) /\ distance target e = Ok d /\
         nearest_first target used music_library k d).
Proof.
  intros Hfin.
  destruct (find_closest_loop_spec target used music_library infinity None
              F.infinity_num Hfin) as (r & Hr & Hcase).
  exists r. split; [exact Hr|].
  destruct Hcase as [[-> Hall]|(k & f & e & d & -> & Hk & Hn & Hd & Hlt & Hnear)].
  - split; [split; [intros _|reflexivity]|intros ? [=]].
    intros [g e] Hin. simpl.
    destruct (decide (g ∈ used)) as [|Hg]; [assumption|exfalso].
    apply list_elem_of_lookup in Hin as [j Hj].
    unfold finite_distances in Hfin. rewrite forallb_forall in Hfin.
    specialize (Hfin (g, e)).
    rewrite <- list_elem_of_In in Hfin.
    specialize (Hfin (proj2 (list_elem_of_lookup _ _) (ex_intro _ j Hj))).
    unfold excluded, finite_distance in Hfin. simpl in Hfin.
    rewrite bool_decide_eq_false_2 in Hfin by exact Hg. simpl in Hfin.
    destruct (distance target e) as [d| |] eqn:Hd; try discriminate Hfin.
    pose proof (Hall j g e d Hj Hg Hd) as Hle.
    apply F.leb_ltb_false in Hle. congruence.
  - split.
    + split; [intros [=]|intros Hall]. exfalso. apply Hn.
      apply (Hall (f, e)). apply list_elem_of_lookup. exists k. exact Hk.
    + intros g [= <-]. exists k, e, d. auto.
Qed.

(** Three clips, two of them at the same least distance 0.25: the first of
    the two in the library order is returned. *)
Lemma find_closest_music_nearest_witness :
  let target := {| valence := 0; arousal := 0 |} in
  let music_library :=
    [("a.wav"%string, {| valence := 0.5; arousal := 0 |});
     ("b.wav"%string, {| valence := 0; arousal := 0.25 |});
     ("c.wav"%string, {| valence := 0.25; arousal := 0 |})] in
  finite_distances target ∅ music_library = true /\
  find_closest_music target music_library ∅ = Ok (Some "b.wav"%string) /\
  exists r, find_closest_music target music_library ∅ = Ok r /\
    (r = None <-> forall item, item ∈ music_library -> item.1 ∈ (∅ : gset string)) /\
    (forall music_file, r = Some music_file ->
       exists k e d, music_library !! k = Some (music_file, e) /\
         (music_file ∉ (∅ : gset string)) /\ distance target e = Ok d /\
         nearest_first target ∅ music_library k d).
Proof.
  cbv zeta. split; [reflexivity|]. split; [reflexivity|].
  apply find_closest_music_nearest. reflexivity.
Defined.

(** C1 as stated fails: a clip whose valence is an infinity (the float that
    a JSON number such as 1e999 is read as) is the only item of the library
    and is not excluded, yet the result is [None]: its distance is not
    below the initial [min_distance], [float('inf')]. *)
Lemma find_closest_music_none_with_candidate :
  let music_library := [("a.wav"%string, {| valence := infinity; arousal := 0 |})] in
  find_closest_music {| valence := 0; arousal := 0 |} music_library ∅ = Ok None /\
  music_library <> [] /\
  ("a.wav"%string ∉ (∅ : gset string)).
Proof.
  cbv zeta. split; [reflexivity|]. split; [discriminate|]. apply not_elem_of_empty.
Qed.

(** ** Planned durations *)

(** [trunc] is the quotient rounded toward zero of that fraction. *)
Lemma trunc_quot (x : float) : trunc x = Z.quot (float_num x) (float_den x).
Proof.
  unfold trunc, float_num, float_den.
  destruct (Prim2SF x) as [| | |s m e]; try reflexivity.
  destruct (Z.le_gt_cases 0 e) as [He|He].
  - rewrite Z.shiftl_mul_pow2 by exact He.
    rewrite (Z.max_r 0 e) by exact He. rewrite (Z.max_l 0 (- e)) by lia.
    change (2 ^ 0) with 1. rewrite Z.quot_1_r. destruct s; lia.
  - rewrite Z.shiftl_div_pow2 by lia.
    rewrite (Z.max_l 0 e) by lia. rewrite (Z.max_r 0 (- e)) by lia.
    change (2 ^ 0) with 1. rewrite Z.mul_1_r.
    assert (0 < 2 ^ (- e)) by (apply Z.pow_pos_nonneg; lia).
    destruct s.
    + rewrite Z.quot_opp_l by lia. rewrite Z.quot_div_nonneg by lia. reflexivity.
    + rewrite Z.quot_div_nonneg by lia. reflexivity.
Qed.

Lemma raw_duration_inv (paragraph : Paragraph) (total_duration raw : Z) :
  raw_duration paragraph total_duration = Ok raw ->
  exists t, float_of_int total_duration = Ok t /\
    py_int (PrimFloat.mul
              (PrimFloat.sub (proportion_end paragraph) (proportion_start paragraph)) t)
    = Ok raw.
Proof.
  unfold raw_duration. destruct (float_of_int total_duration) as [t| |]; try discriminate.
  simpl. intros Hraw. exists t. split; [reflexivity|exact Hraw].
Qed.

(** C2, as amended: the raw duration of a paragraph is
    [int((proportion_end - proportion_start) * total_duration)], the float
    product truncated toward zero (not rounded to the nearest integer); the
    planned duration is the raw duration for paragraph 0 and the raw
    duration plus the crossfade length for every later paragraph. *)
Theorem planned_duration_truncates (paragraph : Paragraph)
    (total_duration crossfade_duration raw : Z) :
  raw_duration paragraph total_duration = Ok raw ->
  (exists t, float_of_int total_duration = Ok t /\
     let x := PrimFloat.mul
                (PrimFloat.sub (proportion_end paragraph) (proportion_start paragraph)) t in
     raw = Z.quot (float_num x) (float_den x)) /\
  planned_duration 0 paragraph total_duration crossfade_duration = Ok raw /\
  forall i, planned_duration (S i) paragraph total_duration crossfade_duration
            = Ok (raw + crossfade_duration).
Proof.
  intros Hraw. split; [|split].
  - destruct (raw_duration_inv _ _ _ Hraw) as (t & Ht & Hint). exists t.
    split; [exact Ht|]. cbv zeta. unfold py_int in Hint.
    destruct (PrimFloat.is_nan _); [discriminate|].
    destruct (PrimFloat.is_infinity _); [discriminate|].
    injection Hint as <-. apply trunc_quot.
  - unfold planned_duration. rewrite Hraw. reflexivity.
  - intros i. unfold planned_duration. rewrite Hraw. reflexivity.
Qed.

(** The paragraphs [0, 0.5) and [0.5, 1) of a 60000 ms track with a
    5000 ms crossfade: 30000 ms and 35000 ms. *)
Lemma planned_duration_halves :
  planned_duration 0 first_half 60000 5000 = Ok 30000 /\
  planned_duration 1 second_half 60000 5000 = Ok 35000.
Proof. split; reflexivity. Qed.

Lemma planned_duration_truncates_witness :
  raw_duration second_half 60000 = Ok 30000 /\
  ((exists t, float_of_int 60000 = Ok t /\
      let x := PrimFloat.mul
                 (PrimFloat.sub (proportion_end second_half) (proportion_start second_half)) t in
      30000 = Z.quot (float_num x) (float_den x)) /\
   planned_duration 0 second_half 60000 5000 = Ok 30000 /\
   forall i, planned_duration (S i) second_half 60000 5000 = Ok (30000 + 5000)).
Proof.
  split; [reflexivity|]. apply planned_duration_truncates. reflexivity.
Defined.

(** C2 as stated fails: the raw duration is not the rounded product.  The
    paragraph [0.75, 1) of a 15 ms track: the product is 3.75, the code
    plans 3 ms, the nearest integer is 4.  The paragraph [0.2, 0.3) of a
    60000 ms track: the float product is just below 6000, the code plans
    5999 ms, the nearest integer is 6000. *)
Lemma raw_duration_not_rounded :
  raw_duration last_quarter 15 = Ok 3 /\
  PrimFloat.mul (PrimFloat.sub (proportion_end last_quarter) (proportion_start last_quarter))
                (Z2float 15) = 3.75%float /\
  spec_round 3.75%float = 4 /\
  raw_duration third_tenth 60000 = Ok 5999 /\
  spec_round (PrimFloat.mul
                (PrimFloat.sub (proportion_end third_tenth) (proportion_start third_tenth))
                (Z2float 60000)) = 6000.
Proof. repeat split; reflexivity. Qed.

(** ** Lengths of segments *)

Section Lengths.
Context {Sample : Type} `{AudioOps Sample}.
Import Audio.

Lemma len_nonneg (seg : list Sample) : 0 <= len seg.
Proof. unfold len. lia. Qed.

Lemma len_app (seg1 seg2 : list Sample) : len (seg1 ++ seg2) = len seg1 + len seg2.
Proof. unfold len. rewrite length_app. lia. Qed.

Lemma len_silent (d : Z) : 0 <= d -> len (silent d) = d.
Proof. intros Hd. unfold len, silent. rewrite length_replicate. lia. Qed.

Lemma len_take (n : nat) (seg : list Sample) :
  (n <= length seg)%nat -> len (take n seg) = Z.of_nat n.
Proof. intros Hn. unfold len. rewrite length_take. lia. Qed.

(** A slice [seg[:d]] inside the segment has length [d]. *)
Lemma len_prefix (seg : list Sample) (d : Z) :
  0 <= d <= len seg -> len (prefix seg d) = d.
Proof.
  intros Hd. unfold prefix.
  destruct (Z.ltb_spec d 0) as [?|_]; [lia|].
  rewrite Z.min_l by lia.
  destruct (Z.ltb_spec d 0) as [?|_]; [lia|].
  rewrite len_take; unfold len in *; lia.
Qed.

Lemma length_ramp (from_power to_power : float) (seg : list Sample) :
  length (ramp from_power to_power seg) = length seg.
Proof. unfold ramp. apply length_imap. Qed.

(** At a position that is not negative, a slice of one position is the
    chunk there, and empty past the end. *)
Lemma py_slice_at (seg : list Sample) (m : Z) :
  0 <= m -> py_slice seg m (m + 1) = take 1 (drop (Z.to_nat m) seg).
Proof.
  intros Hm. unfold py_slice.
  destruct (Z.ltb_spec m 0) as [?|_]; [lia|].
  destruct (Z.ltb_spec (m + 1) 0) as [?|_]; [lia|].
  destruct (Z_lt_le_dec m (len seg)) as [Hlt|Hge].
  - rewrite !Z.min_l by lia. rewrite take_drop_commute.
    do 2 f_equal. lia.
  - rewrite !Z.min_r by lia. unfold len in *.
    rewrite !drop_ge; [reflexivity | lia |].
    rewrite length_take. lia.
Qed.

Lemma getitem_at (seg : list Sample) (m : Z) :
  0 <= m -> getitem seg m = take 1 (drop (Z.to_nat m) seg).
Proof.
  intros Hm. unfold getitem, parse_position.
  destruct (Z.ltb_spec m 0) as [?|_]; [lia|].
  destruct (Z.ltb_spec (m + 1) 0) as [?|_]; [lia|].
  apply py_slice_at. exact Hm.
Qed.

Lemma get_frame_at (seg : list Sample) (m : Z) :
  0 <= m -> get_frame seg m = take 1 (drop (Z.to_nat m) seg).
Proof. apply py_slice_at. Qed.

Lemma steps_from (g : nat -> Sample -> Sample) (seg : list Sample) (start n : nat) :
  forall k : nat,
    flat_map (fun i => map (g i) (take 1 (drop (start + i) seg))) (seq k n)
    = imap (fun j => g (k + j)%nat) (take n (drop (start + k) seg)).
Proof.
  induction n as [|n IH]; intros k; [reflexivity|].
  simpl seq. simpl flat_map. rewrite IH.
  replace (drop (start + S k) seg) with (drop 1 (drop (start + k) seg))
    by (rewrite drop_drop; f_equal; lia).
  destruct (drop (start + k) seg) as [|x rest].
  - rewrite drop_nil, !take_nil. reflexivity.
  - simpl. rewrite Nat.add_0_r, drop_0. f_equal.
    apply imap_ext. intros j y _. simpl. f_equal. lia.
Qed.

(** A fade that starts inside the segment scales the chunks from its
    start, one by one, as far as there are any. *)
Lemma fade_steps_inside (from_power gain_delta : float) (start duration : Z)
    (seg : list Sample) :
  0 <= start ->
  fade_steps from_power gain_delta start duration seg
  = imap (fun i => audioop_mul (volume_change from_power gain_delta duration i))
         (take (Z.to_nat duration) (drop (Z.to_nat start) seg)).
Proof.
  intros Hs. unfold fade_steps.
  rewrite (flat_map_ext _
             (fun i => map (audioop_mul (volume_change from_power gain_delta duration i))
                           (take 1 (drop (Z.to_nat start + i) seg)))).
  - rewrite steps_from, Nat.add_0_r. reflexivity.
  - intros i.
    replace (Z.to_nat start + i)%nat with (Z.to_nat (start + Z.of_nat i)) by lia.
    destruct (duration >? 100); [rewrite getitem_at | rewrite get_frame_at];
      (reflexivity || lia).
Qed.

(** A fade-in ramps the first [d] chunks and leaves the rest. *)
Lemma fade_in_inside (d : Z) (seg : list Sample) :
  fade_in d seg
  = imap (fun i => audioop_mul (volume_change faded (PrimFloat.sub 1%float faded) d i))
         (take (Z.to_nat d) seg)
    ++ drop (Z.to_nat d) seg.
Proof. unfold fade_in. rewrite fade_steps_inside by lia. reflexivity. Qed.

(** A fade-out no longer than the segment leaves the chunks before its
    start and ramps the last [d]. *)
Lemma fade_out_inside (d : Z) (seg : list Sample) :
  0 <= d <= len seg ->
  fade_out d seg
  = take (Z.to_nat (len seg - d)) seg
    ++ imap (fun i => audioop_mul (volume_change 1%float (PrimFloat.sub faded 1%float) d i))
            (drop (Z.to_nat (len seg - d)) seg).
Proof.
  intros Hd. unfold fade_out. cbv zeta.
  rewrite fade_steps_inside by lia. f_equal.
  - unfold prefix.
    destruct (Z.ltb_spec (len seg - d) 0) as [?|_]; [lia|].
    rewrite Z.min_l by lia.
    destruct (Z.ltb_spec (len seg - d) 0) as [?|_]; [lia|]. reflexivity.
  - f_equal. apply take_ge. rewrite length_drop. unfold len in *. lia.
Qed.

Lemma len_fade_in (d : Z) (seg : list Sample) : len (fade_in d seg) = len seg.
Proof.
  rewrite fade_in_inside. unfold len.
  rewrite length_app, length_imap, <- length_app, take_drop. reflexivity.
Qed.

Lemma len_fade_out (d : Z) (seg : list Sample) :
  0 <= d <= len seg -> len (fade_out d seg) = len seg.
Proof.
  intros Hd. rewrite fade_out_inside by exact Hd. unfold len.
  rewrite length_app, length_imap, <- length_app, take_drop. reflexivity.
Qed.

(** The calls return the data when the duration is positive. *)
Lemma call_fade_in_positive (d : Z) (seg : list Sample) :
  0 < d -> call_fade_in d seg = Ok (fade_in d seg).
Proof.
  intros Hd. unfold call_fade_in, fade_check.
  destruct (Z.ltb_spec d 0) as [?|_]; [lia|].
  destruct (Z.eqb_spec d 0) as [?|_]; [lia|]. reflexivity.
Qed.

Lemma call_fade_out_positive (d : Z) (seg : list Sample) :
  0 < d -> call_fade_out d seg = Ok (fade_out d seg).
Proof.
  intros Hd. unfold call_fade_out, fade_check.
  destruct (Z.ltb_spec d 0) as [?|_]; [lia|].
  destruct (Z.eqb_spec d 0) as [?|_]; [lia|]. reflexivity.
Qed.

(** They raise otherwise, whatever the segment. *)
Lemma call_fade_in_refused (d : Z) (seg : list Sample) :
  d <= 0 -> call_fade_in d seg = Raise (if d <? 0 then InvalidDuration else TypeError).
Proof.
  intros Hd. unfold call_fade_in, fade_check.
  destruct (Z.ltb_spec d 0) as [?|?]; [reflexivity|].
  destruct (Z.eqb_spec d 0) as [?|?]; [reflexivity|lia].
Qed.

Lemma len_apply_gain (seg : list Sample) (db : float) : len (apply_gain seg db) = len seg.
Proof. unfold apply_gain, len. rewrite length_map. reflexivity. Qed.

Lemma len_overlay (seg1 seg2 : list Sample) : len (overlay seg1 seg2) = len seg1.
Proof.
  unfold overlay, len.
  rewrite length_app, length_zip_with, !length_take, length_drop. lia.
Qed.

(** The crossfade length law: a crossfade that fits both segments is
    accepted, and shortens the concatenation by its length. *)
Lemma append_fits (seg1 seg2 : list Sample) (crossfade : Z) :
  0 <= crossfade -> crossfade <= len seg1 -> crossfade <= len seg2 ->
  exists out, append seg1 seg2 crossfade = Ok out /\
              len out = len seg1 + len seg2 - crossfade.
Proof.
  intros Hc Hfit1 Hfit2. unfold append.
  destruct (Z.eqb_spec crossfade 0) as [->|Hne].
  - eexists. split; [reflexivity|]. rewrite len_app. lia.
  - destruct (Z.gtb_spec crossfade (len seg1)) as [?|_]; [lia|].
    destruct (Z.gtb_spec crossfade (len seg2)) as [?|_]; [lia|].
    eexists. split; [reflexivity|]. unfold len in *.
    rewrite !length_app, length_zip_with, !length_ramp, !length_take, !length_drop. lia.
Qed.

(** A crossfade longer than either segment is refused. *)
Lemma append_too_long (seg1 seg2 : list Sample) (crossfade : Z) :
  crossfade <> 0 -> (len seg1 < crossfade \/ len seg2 < crossfade) ->
  append seg1 seg2 crossfade = Raise ValueError.
Proof.
  intros Hne Hlong. unfold append.
  destruct (Z.eqb_spec crossfade 0) as [?|_]; [contradiction|].
  destruct (Z.gtb_spec crossfade (len seg1)) as [?|?]; [reflexivity|].
  destruct (Z.gtb_spec crossfade (len seg2)) as [?|?]; [reflexivity|lia].
Qed.

(** ** The doubling loop *)

(** With fuel for the missing length the loop returns, and what it
    returns reaches the duration. *)
Lemma loop_extend_fuel (fuel : nat) :
  forall (seg : list Sample) (duration : Z),
    seg <> [] -> duration - len seg <= Z.of_nat fuel ->
    exists looped, loop_extend fuel seg duration = Ok looped /\
                   duration <= len looped /\ looped <> [].
Proof.
  induction fuel as [|fuel IH]; intros seg duration Hne Hfuel.
  - simpl. destruct (Z.ltb_spec (len seg) duration) as [?|?]; [lia|].
    exists seg. auto.
  - simpl. destruct (Z.ltb_spec (len seg) duration) as [Hlt|?].
    + assert (0 < len seg) by (unfold len; destruct seg; [contradiction|simpl; lia]).
      apply IH.
      * unfold concat. destruct seg; [contradiction|discriminate].
      * unfold concat. rewrite len_app. lia.
    + exists seg. auto.
Qed.

(** Two runs of the loop that both return, return the same segment. *)
Lemma loop_extend_deterministic (fuel1 : nat) :
  forall (fuel2 : nat) (seg out1 out2 : list Sample) (duration : Z),
    loop_extend fuel1 seg duration = Ok out1 ->
    loop_extend fuel2 seg duration = Ok out2 -> out1 = out2.
Proof.
  induction fuel1 as [|fuel1 IH]; intros [|fuel2] seg out1 out2 duration; simpl;
    destruct (len seg <? duration); try congruence.
  apply IH.
Qed.

(** On an empty segment and a positive duration the loop never ends. *)
Lemma loop_extend_empty (fuel : nat) (duration : Z) :
  0 < duration -> loop_extend fuel ([] : list Sample) duration = OutOfFuel.
Proof.
  intros Hd. induction fuel as [|fuel IH]; simpl;
    (destruct (Z.ltb_spec (len ([] : list Sample)) duration) as [_|Hge];
     [|unfold len in Hge; simpl in Hge; lia]).
  - reflexivity.
  - exact IH.
Qed.

(** The loop on a non-empty segment returns one segment, whatever the fuel
    from [duration] on. *)
Lemma loop_extend_enough (seg : list Sample) (duration : Z) :
  seg <> [] ->
  exists looped,
    (forall fuel, (Z.to_nat duration <= fuel)%nat ->
                  loop_extend fuel seg duration = Ok looped) /\
    duration <= len looped.
Proof.
  intros Hne.
  destruct (loop_extend_fuel (Z.to_nat duration) seg duration Hne) as (looped & Hl & Hlen & _).
  { pose proof (len_nonneg seg). lia. }
  exists looped. split; [|exact Hlen].
  intros fuel Hfuel.
  destruct (loop_extend_fuel fuel seg duration Hne) as (looped' & Hl' & _).
  { pose proof (len_nonneg seg). lia. }
  rewrite Hl'. f_equal. exact (loop_extend_deterministic _ _ _ _ _ _ Hl' Hl).
Qed.

(** C8: for a non-empty source segment and a duration [d >= 0] the
    doubling loop terminates (with enough fuel it returns, and more fuel
    returns the same), and the slice [[:d]] of its result has length
    exactly [d]. *)
Theorem loop_extend_trim_length (seg : list Sample) (duration : Z) :
  seg <> [] -> 0 <= duration ->
  exists looped,
    (forall fuel, (Z.to_nat duration <= fuel)%nat ->
                  loop_extend fuel seg duration = Ok looped) /\
    len (prefix looped duration) = duration.
Proof.
  intros Hne Hd.
  destruct (loop_extend_enough seg duration Hne) as (looped & Hl & Hlen).
  exists looped. split; [exact Hl|]. apply len_prefix. lia.
Qed.

End Lengths.

(** A 3 ms clip looped to 10 ms: 3, 6, 12 ms, then cut. *)
Lemma loop_extend_trim_length_witness :
  clip "a.wav" 3 <> [] /\ 0 <= 10 /\
  exists looped,
    (forall fuel, (Z.to_nat 10 <= fuel)%nat ->
                  Audio.loop_extend fuel (clip "a.wav" 3) 10 = Ok looped) /\
    Audio.len (Audio.prefix looped 10) = 10.
Proof.
  split; [discriminate|]. split; [lia|].
  apply loop_extend_trim_length; [discriminate|lia].
Defined.

(** ** The assembly step *)

Section Assembly.
Context {Sample : Type} `{AudioOps Sample}.
Import Audio.

(** Trimming or padding gives the target length. *)
Lemma len_adjust (final_audio : list Sample) (total_duration : Z) :
  0 <= total_duration -> len (adjust final_audio total_duration) = total_duration.
Proof.
  intros Ht. unfold adjust.
  destruct (Z.gtb_spec (len final_audio) total_duration) as [Hgt|Hle].
  - apply len_prefix. lia.
  - destruct (Z.ltb_spec (len final_audio) total_duration) as [Hlt|Hge].
    + unfold concat. rewrite len_app, len_silent by lia. lia.
    + lia.
Qed.

(** The joins succeed when the crossfade fits the accumulator and every
    segment appended to it. *)
Lemma join_fits (segments : list (list Sample)) :
  forall (final_audio : list Sample) (crossfade_duration : Z),
    0 <= crossfade_duration -> crossfade_duration <= len final_audio ->
    Forall (fun segment => crossfade_duration <= len segment) segments ->
    exists out, join final_audio segments crossfade_duration = Ok out /\
                crossfade_duration <= len out.
Proof.
  induction segments as [|segment rest IH]; intros acc c Hc Hacc Hall; simpl.
  - exists acc. auto.
  - apply Forall_cons in Hall as [Hseg Hrest].
    destruct (append_fits acc segment c Hc Hacc Hseg) as (acc' & -> & Hlen). simpl.
    apply IH; [assumption|lia|assumption].
Qed.

(** The adjustment trims an audio that is longer than the target and pads
    a shorter one with silence. *)
Lemma adjust_cases (final_audio : list Sample) (total_duration : Z) :
  0 <= total_duration ->
  (total_duration < len final_audio ->
   adjust final_audio total_duration = take (Z.to_nat total_duration) final_audio) /\
  (len final_audio <= total_duration ->
   adjust final_audio total_duration
   = final_audio ++ replicate (Z.to_nat (total_duration - len final_audio)) silence).
Proof.
  intros Ht. unfold adjust. split; intros Hlen.
  - destruct (Z.gtb_spec (len final_audio) total_duration) as [_|?]; [|lia].
    unfold prefix.
    destruct (Z.ltb_spec total_duration 0) as [?|_]; [lia|].
    rewrite Z.min_l by lia.
    destruct (Z.ltb_spec total_duration 0) as [?|_]; [lia|]. reflexivity.
  - destruct (Z.gtb_spec (len final_audio) total_duration) as [?|_]; [lia|].
    destruct (Z.ltb_spec (len final_audio) total_duration) as [Hlt|Hge].
    + reflexivity.
    + replace (total_duration - len final_audio) with 0 by lia.
      simpl. rewrite app_nil_r. reflexivity.
Qed.

(** With a fade that is positive and no longer than the target, the
    assembly of at least one segment is the adjusted join, faded in and
    out. *)
Lemma assemble_faded (first : list Sample) (rest : list (list Sample))
    (total_duration crossfade_duration fade_duration : Z) :
  0 < fade_duration ->
  assemble (first :: rest) total_duration crossfade_duration fade_duration
  = (joined ← join first rest crossfade_duration;
     Ok (fade_out fade_duration (fade_in fade_duration (adjust joined total_duration)))).
Proof.
  intros Hf. simpl.
  destruct (join first rest crossfade_duration) as [joined| |]; try reflexivity.
  simpl. rewrite call_fade_in_positive by exact Hf. simpl.
  apply call_fade_out_positive. exact Hf.
Qed.

Lemma len_faded_adjust (joined : list Sample) (total_duration fade_duration : Z) :
  0 <= fade_duration <= total_duration ->
  len (fade_out fade_duration (fade_in fade_duration (adjust joined total_duration)))
  = total_duration.
Proof.
  intros Hf.
  assert (len (fade_in fade_duration (adjust joined total_duration)) = total_duration) as Hin
    by (rewrite len_fade_in; apply len_adjust; lia).
  rewrite len_fade_out; [exact Hin|]. rewrite Hin. exact Hf.
Qed.

(** A fade that is not positive is refused, after the join. *)
Lemma assemble_fade_refused (first : list Sample) (rest : list (list Sample))
    (total_duration crossfade_duration fade_duration : Z) (final_audio : list Sample) :
  fade_duration <= 0 ->
  assemble (first :: rest) total_duration crossfade_duration fade_duration <> Ok final_audio.
Proof.
  intros Hf. simpl.
  destruct (join first rest crossfade_duration) as [joined| |]; try discriminate.
  simpl. rewrite call_fade_in_refused by exact Hf. discriminate.
Qed.


(** C3, as amended: for a target length [total_duration >= 0], no
    prepared segment gives a silent buffer of the target length, whatever
    the fade.  With
    at least one segment and a fade that is positive and no longer than
    the target, a buffer returned by the assembly step is the join of the
    segments, cut to its first [total_duration] milliseconds when it is
    longer and followed by silence up to [total_duration] when it is
    shorter, then faded in and out, and its length is exactly
    [total_duration]; the step returns a buffer for one segment, and for
    several segments whenever the crossfade fits each of them.  With a
    fade that is not positive the step returns no buffer. *)
Theorem assemble_length (music_segments : list (list Sample))
    (total_duration crossfade_duration fade_duration : Z) :
  0 <= total_duration ->
  (music_segments = [] ->
   assemble music_segments total_duration crossfade_duration fade_duration
   = Ok (silent total_duration) /\
   len (silent total_duration) = total_duration) /\
  (0 < fade_duration <= total_duration ->
   (forall first rest final_audio,
      music_segments = first :: rest ->
      assemble music_segments total_duration crossfade_duration fade_duration = Ok final_audio ->
      exists joined adjusted,
        join first rest crossfade_duration = Ok joined /\
        (total_duration < len joined ->
         adjusted = take (Z.to_nat total_duration) joined) /\
        (len joined <= total_duration ->
         adjusted = joined ++ replicate (Z.to_nat (total_duration - len joined)) silence) /\
        final_audio = fade_out fade_duration (fade_in fade_duration adjusted) /\
        len final_audio = total_duration) /\
   (((length music_segments <= 1)%nat \/
     (0 <= crossfade_duration /\
      Forall (fun segment => crossfade_duration <= len segment) music_segments)) ->
    exists final_audio,
      assemble music_segments total_duration crossfade_duration fade_duration = Ok final_audio /\
      len final_audio = total_duration)) /\
  (fade_duration <= 0 -> music_segments <> [] ->
   forall final_audio,
     assemble music_segments total_duration crossfade_duration fade_duration <> Ok final_audio).
Proof.
  intros Ht. split; [|split].
  - intros ->. split; [reflexivity|]. apply len_silent. exact Ht.
  - intros Hf. split.
    + intros first rest out -> Hout. rewrite assemble_faded in Hout by lia.
      destruct (join first rest crossfade_duration) as [joined| |]; try discriminate Hout.
      simpl in Hout. injection Hout as <-.
      destruct (adjust_cases joined total_duration Ht) as [Hlong Hshort].
      exists joined, (adjust joined total_duration).
      split; [reflexivity|]. split; [exact Hlong|]. split; [exact Hshort|].
      split; [reflexivity|]. apply len_faded_adjust. lia.
    + intros Hfit. destruct music_segments as [|first rest].
      * exists (silent total_duration). split; [reflexivity|]. apply len_silent. exact Ht.
      * rewrite assemble_faded by lia.
        assert (exists joined, join first rest crossfade_duration = Ok joined) as [joined ->].
        { destruct Hfit as [Hone|[Hc Hall]].
          - destruct rest; [|simpl in Hone; lia]. eexists. reflexivity.
          - apply Forall_cons in Hall as [Hfirst Hrest].
            destruct (join_fits rest first crossfade_duration Hc Hfirst Hrest) as (out & -> & _).
            eexists. reflexivity. }
        simpl. eexists. split; [reflexivity|]. apply len_faded_adjust. lia.
  - intros Hf Hne out. destruct music_segments as [|first rest]; [congruence|].
    apply assemble_fade_refused. exact Hf.
Qed.

End Assembly.

(** Two segments of 8 and 12 ms, a crossfade of 5 ms, a fade of 3 ms, a
    target of 20 ms: the join has 15 ms and is padded with 5 ms of
    silence. *)
Lemma assemble_length_witness :
  0 <= 20 /\ 0 < 3 <= 20 /\
  exists final_audio,
    assemble [clip "a.wav" 8; clip "b.wav" 12] 20 5 3 = Ok final_audio /\
    Audio.len final_audio = 20.
Proof.
  split; [lia|]. split; [lia|].
  destruct (assemble_length [clip "a.wav" 8; clip "b.wav" 12] 20 5 3)
    as (_ & Hfaded & _); [lia|].
  destruct Hfaded as [_ Hreturns]; [lia|].
  apply Hreturns. right. split; [lia|]. repeat constructor; discriminate.
Defined.

(** C3 as stated fails.  A fade of 3000 ms on a target of 2000 ms: the
    fade-out starts 1000 ms before the audio, and the buffer returned has
    3999 ms.  A fade of 0 ms: the assembly raises TypeError. *)
Lemma fade_longer_than_target_changes_length :
  (final_audio ← assemble [clip "a.wav" 2000] 2000 100 3000; Ok (Audio.len final_audio))
  = Ok 3999 /\
  assemble [clip "a.wav" 20] 20 5 0 = Raise TypeError.
Proof. split; vm_compute; reflexivity. Qed.

(** ** The paragraph loop *)

Section Planner.
Context {Sample : Type} `{AudioOps Sample}.
Import Audio.

Variable fuel : nat.
Variable music_library : MusicLibrary.
Variable music_files : gmap string (list Sample).
Variables total_duration crossfade_duration : Z.

Local Abbreviation step := (process_paragraph fuel music_library music_files
                    total_duration crossfade_duration).
Local Abbreviation run := (process_paragraphs fuel music_library music_files
                   total_duration crossfade_duration).

(** An iteration that returns either skips the paragraph (no match, or
    a match that is not loaded) and leaves the three variables as they
    are, or appends one segment for a clip that was not used and is
    loaded, and marks it used. *)
Lemma process_paragraph_cases (i : nat) (paragraph : Paragraph) (st st' : plan_state) :
  step i paragraph st = Ok st' ->
  exists duration closest_music,
    planned_duration i paragraph total_duration crossfade_duration = Ok duration /\
    find_closest_music (emotions paragraph) music_library (used_music st)
      = Ok closest_music /\
    ((st' = st /\
      (closest_music = None \/
       exists music_file, closest_music = Some music_file /\
                          music_files !! music_file = None))
     \/
     (exists music_file music_segment looped,
        closest_music = Some music_file /\
        music_files !! music_file = Some music_segment /\
        loop_extend fuel music_segment duration = Ok looped /\
        st' = {| used_music := {[music_file]} ∪ used_music st;
                 music_segments := music_segments st ++ [prefix looped duration];
                 selected := selected st ++ [(i, music_file, duration)] |})).
Proof.
  unfold process_paragraph.
  destruct (planned_duration i paragraph total_duration crossfade_duration)
    as [duration| |]; simpl; try discriminate.
  destruct (find_closest_music (emotions paragraph) music_library (used_music st))
    as [[music_file|]| |]; simpl; try discriminate.
  - destruct (music_files !! music_file) as [music_segment|] eqn:Hfile.
    + destruct (loop_extend fuel music_segment duration) as [looped| |] eqn:Hloop;
        simpl; try discriminate.
      intros [= <-]. exists duration, (Some music_file). split; [reflexivity|].
      split; [reflexivity|]. right. exists music_file, music_segment, looped. auto.
    + intros [= <-]. exists duration, (Some music_file). split; [reflexivity|].
      split; [reflexivity|]. left. split; [reflexivity|]. right. eauto.
  - intros [= <-]. exists duration, None. split; [reflexivity|].
    split; [reflexivity|]. left. auto.
Qed.

(** A paragraph with no match, or whose match is not loaded, is skipped. *)
Lemma process_paragraph_skip (i : nat) (paragraph : Paragraph) (st : plan_state)
    (duration : Z) (closest_music : option string) :
  planned_duration i paragraph total_duration crossfade_duration = Ok duration ->
  find_closest_music (emotions paragraph) music_library (used_music st) = Ok closest_music ->
  (closest_music = None \/
   exists music_file, closest_music = Some music_file /\ music_files !! music_file = None) ->
  step i paragraph st = Ok st.
Proof.
  intros Hd Hc Hskip. unfold process_paragraph. rewrite Hd. simpl. rewrite Hc. simpl.
  destruct Hskip as [->|(music_file & -> & ->)]; reflexivity.
Qed.

Lemma process_paragraphs_app (ps1 : list Paragraph) :
  forall (ps2 : list Paragraph) (i : nat) (st : plan_state),
    run i (ps1 ++ ps2) st = (st1 ← run i ps1 st; run (i + length ps1) ps2 st1).
Proof.
  induction ps1 as [|p ps1 IH]; intros ps2 i st; simpl.
  - rewrite Nat.add_0_r. reflexivity.
  - destruct (step i p st) as [st1| |]; simpl; try reflexivity.
    rewrite IH. replace (S i + length ps1)%nat with (i + S (length ps1))%nat by lia.
    reflexivity.
Qed.

(** What a run of the loop over [ps], from paragraph index [i] and state
    [st], adds to the state. *)
Lemma process_paragraphs_spec (ps : list Paragraph) :
  forall (i : nat) (st st' : plan_state),
    run i ps st = Ok st' ->
    exists (new : list (nat * string * Z)) (segments : list (list Sample)),
      selected st' = selected st ++ new /\
      music_segments st' = music_segments st ++ segments /\
      length segments = length new /\
      sublist new.*1.*1 (seq i (length ps)) /\
      used_music st' = list_to_set new.*1.*2 ∪ used_music st /\
      NoDup new.*1.*2 /\
      Forall (fun music_file =>
                (music_file ∉ used_music st) /\ is_Some (music_files !! music_file))
             new.*1.*2.
Proof.
  induction ps as [|p ps IH]; intros i st st' Hrun; simpl in Hrun.
  - injection Hrun as <-. exists [], []. rewrite !app_nil_r. simpl.
    repeat split; try constructor. rewrite union_empty_l_L. reflexivity.
  - destruct (step i p st) as [st1| |] eqn:Hstep; simpl in Hrun; try discriminate Hrun.
    destruct (IH _ _ _ Hrun) as (new & segs & Hsel & Hseg & Hlen & Hsub & Hused & Hnd & Hall).
    destruct (process_paragraph_cases _ _ _ _ Hstep)
      as (d & closest & Hd & Hf & [[-> _]|(f & clip0 & looped & -> & Hfile & Hloop & ->)]).
    + exists new, segs. repeat split; try assumption.
      simpl. apply sublist_cons. exact Hsub.
    + simpl in *. exists ((i, f, d) :: new), (prefix looped d :: segs).
      rewrite <- !app_assoc in *. simpl in *. repeat split; try assumption.
      * lia.
      * apply sublist_skip. exact Hsub.
      * rewrite Hused. rewrite (assoc_L (∪)). rewrite (comm_L (∪) _ {[f]}). reflexivity.
      * apply NoDup_cons. split; [|exact Hnd].
        intros Hin. rewrite Forall_forall in Hall.
        destruct (Hall f Hin) as [Hnot _]. apply Hnot, elem_of_union_l, elem_of_singleton.
        reflexivity.
      * apply Forall_cons. split.
        -- split; [exact (proj1 (find_closest_music_not_used _ _ _ _ Hf))|].
           rewrite Hfile. eexists. reflexivity.
        -- eapply Forall_impl; [exact Hall|]. simpl. intros g [Hg ?].
           split; [intros Hin; apply Hg, elem_of_union_r, Hin|assumption].
Qed.

(** The same for a whole run, from the initial state. *)
Lemma process_paragraphs_initial (ps : list Paragraph) (st' : plan_state) :
  run 0 ps initial_state = Ok st' ->
  sublist (indices st') (seq 0 (length ps)) /\
  length (music_segments st') = length (selected st') /\
  used_music st' = list_to_set (clips st') /\
  NoDup (clips st') /\
  Forall (fun music_file => is_Some (music_files !! music_file)) (clips st').
Proof.
  intros Hrun.
  destruct (process_paragraphs_spec _ _ _ _ Hrun)
    as (new & segs & Hsel & Hseg & Hlen & Hsub & Hused & Hnd & Hall).
  simpl in Hsel, Hseg. unfold indices, clips. rewrite Hsel, Hseg.
  repeat split; try assumption.
  - rewrite Hused. simpl. apply union_empty_r_L.
  - eapply Forall_impl; [exact Hall|]. simpl. tauto.
Qed.

End Planner.

Lemma sublist_seq_bounds (l : list nat) (a n x : nat) :
  sublist l (seq a n) -> x ∈ l -> (a <= x < a + n)%nat.
Proof.
  intros Hsub Hx. apply (elem_of_sublist _ _ _ Hx) in Hsub.
  apply elem_of_seq in Hsub. exact Hsub.
Qed.

(** C6, as amended: a matched name that is not among the loaded clips is
    not added to [used_music]: the membership check comes before the
    marking, the state is returned unchanged, and a later paragraph with
    the same emotions is matched to the same name again. *)
Theorem unavailable_clip_not_marked {Sample : Type} `{AudioOps Sample}
    (fuel : nat) (music_library : MusicLibrary)
    (music_files : gmap string (list Sample))
    (total_duration crossfade_duration : Z)
    (i : nat) (paragraph : Paragraph) (st : plan_state)
    (duration : Z) (music_file : string) :
  planned_duration i paragraph total_duration crossfade_duration = Ok duration ->
  find_closest_music (emotions paragraph) music_library (used_music st)
    = Ok (Some music_file) ->
  music_files !! music_file = None ->
  exists st',
    process_paragraph fuel music_library music_files total_duration crossfade_duration
      i paragraph st = Ok st' /\
    used_music st' = used_music st /\
    (music_file ∉ used_music st') /\
    find_closest_music (emotions paragraph) music_library (used_music st')
      = Ok (Some music_file).
Proof.
  intros Hd Hc Hfile. exists st. split.
  - apply (process_paragraph_skip _ _ _ _ _ _ _ _ _ _ Hd Hc). right. eauto.
  - split; [reflexivity|]. split; [|exact Hc].
    exact (proj1 (find_closest_music_not_used _ _ _ _ Hc)).
Qed.

(** C9: in every run [used_music] only grows (the set after a prefix of
    the paragraphs is included in the set after more of them), it is the
    set of the clips of the segments, and no clip has two segments. *)
Theorem used_music_grows_clips_unique {Sample : Type} `{AudioOps Sample}
    (fuel : nat) (music_library : MusicLibrary)
    (music_files : gmap string (list Sample))
    (total_duration crossfade_duration : Z)
    (ps1 ps2 : list Paragraph) (st2 : plan_state) :
  process_paragraphs fuel music_library music_files total_duration crossfade_duration
    0 (ps1 ++ ps2) initial_state = Ok st2 ->
  (exists st1,
     process_paragraphs fuel music_library music_files total_duration crossfade_duration
       0 ps1 initial_state = Ok st1 /\
     used_music st1 ⊆ used_music st2) /\
  used_music st2 = list_to_set (clips st2) /\
  NoDup (clips st2).
Proof.
  intros Hrun.
  destruct (process_paragraphs_initial _ _ _ _ _ _ _ Hrun) as (_ & _ & Hused & Hnd & _).
  split; [|split; assumption].
  rewrite process_paragraphs_app in Hrun.
  destruct (process_paragraphs fuel music_library music_files total_duration
              crossfade_duration 0 ps1 initial_state) as [st1| |] eqn:Hrun1;
    simpl in Hrun; try discriminate Hrun.
  exists st1. split; [reflexivity|].
  destruct (process_paragraphs_spec _ _ _ _ _ _ _ _ _ Hrun) as (new & _ & _ & _ & _ & _ & Hu & _).
  rewrite Hu. apply union_subseteq_r.
Qed.

(** ** Runs on a small library *)

(** The file of [a.wav] does not exist; the first half of the track is
    nearest to [a.wav]. *)
Lemma unavailable_clip_not_marked_witness :
  planned_duration 0 first_half 60 5 = Ok 30 /\
  find_closest_music (emotions first_half) library_ab
    (used_music (initial_state (Sample := chunk))) = Ok (Some "a.wav"%string) /\
  files_b !! "a.wav"%string = None /\
  exists st',
    process_paragraph 0 library_ab files_b 60 5 0 first_half initial_state = Ok st' /\
    used_music st' = used_music (initial_state (Sample := chunk)) /\
    ("a.wav"%string ∉ used_music st') /\
    find_closest_music (emotions first_half) library_ab (used_music st')
      = Ok (Some "a.wav"%string).
Proof.
  split; [reflexivity|]. split; [reflexivity|]. split; [reflexivity|].
  apply (unavailable_clip_not_marked 0 library_ab files_b 60 5 0 first_half
           initial_state 30 "a.wav"%string); reflexivity.
Defined.

(** C6 as stated fails: paragraph 0 is matched to [a.wav], which is not
    loaded; after the iteration [used_music] is still empty, and
    paragraph 1 is matched to [a.wav] again. *)
Lemma unavailable_clip_matched_again :
  find_closest_music (emotions first_half) library_ab ∅ = Ok (Some "a.wav"%string) /\
  files_b !! "a.wav"%string = None /\
  process_paragraph 0 library_ab files_b 60 5 0 first_half initial_state
    = Ok initial_state /\
  used_music (initial_state (Sample := chunk)) = ∅ /\
  find_closest_music (emotions second_half) library_ab
    (used_music (initial_state (Sample := chunk))) = Ok (Some "a.wav"%string).
Proof. repeat split; reflexivity. Qed.

(** Three paragraphs over a library whose two clips are loaded: the third
    paragraph finds no unused clip and is skipped. *)
Lemma used_music_grows_clips_unique_witness :
  exists st2,
    process_paragraphs 4 library_ab files_ab 60 5
      0 ([first_half] ++ [second_half; second_half]) initial_state = Ok st2 /\
    clips st2 = ["a.wav"%string; "b.wav"%string] /\
    indices st2 = [0%nat; 1%nat] /\
    (exists st1,
       process_paragraphs 4 library_ab files_ab 60 5 0 [first_half] initial_state
         = Ok st1 /\
       used_music st1 ⊆ used_music st2) /\
    used_music st2 = list_to_set (clips st2) /\
    NoDup (clips st2).
Proof.
  eexists. split; [vm_compute; reflexivity|].
  split; [reflexivity|]. split; [reflexivity|].
  apply (used_music_grows_clips_unique 4 library_ab files_ab 60 5
           [first_half] [second_half; second_half]).
  vm_compute. reflexivity.
Defined.

(** ** When the pipeline returns *)

Lemma find_closest_loop_returns (target : Paragraph) (used : gset string)
    (items : MusicLibrary) :
  forallb (distance_computed target) items = true ->
  forall min_distance closest_music,
    exists r, find_closest_loop (emotions target) items used min_distance closest_music
              = Ok r.
Proof.
  induction items as [|[f e] rest IH]; intros Hall m c; simpl.
  - exists c. reflexivity.
  - simpl in Hall. apply andb_true_iff in Hall as [He Hrest].
    destruct (decide (f ∈ used)); [apply IH; exact Hrest|].
    unfold distance_computed in He. simpl in He.
    destruct (distance (emotions target) e) as [d| |]; try discriminate He. simpl.
    destruct (PrimFloat.ltb d m); apply IH; exact Hrest.
Qed.

Section Returns.
Context {Sample : Type} `{AudioOps Sample}.
Import Audio.

(** A loaded clip is a decoded file. *)
Lemma load_music_files_lookup (music_library : MusicLibrary) (fs : FileSystem)
    (music_file : string) (audio : list Sample) :
  load_music_files music_library fs !! music_file = Some audio ->
  fs !! music_file = Some audio.
Proof.
  unfold load_music_files.
  assert (Hgen : forall acc : gmap string (list Sample),
             (forall k a, acc !! k = Some a -> fs !! k = Some a) ->
             forall k a,
               foldl (fun music_files item =>
                        match fs !! item.1 with
                        | Some audio => <[item.1 := audio]> music_files
                        | None => music_files
                        end) acc music_library !! k = Some a ->
               fs !! k = Some a).
  { induction music_library as [|[f e] rest IH]; intros acc Hacc k a; simpl.
    - apply Hacc.
    - apply IH. intros k' a'. destruct (fs !! f) as [af|] eqn:Hf; [|apply Hacc].
      destruct (decide (f = k')) as [<-|Hne].
      + rewrite lookup_insert_eq. congruence.
      + rewrite lookup_insert_ne by exact Hne. apply Hacc. }
  apply Hgen. intros k a. rewrite lookup_empty. discriminate.
Qed.

Variable music_library : MusicLibrary.
Variable music_files : gmap string (list Sample).
Variables total_duration crossfade_duration : Z.

Hypothesis crossfade_nonneg : 0 <= crossfade_duration.
Hypothesis clips_nonempty :
  forall music_file audio, music_files !! music_file = Some audio -> audio <> [].

Lemma process_paragraph_returns (i : nat) (paragraph : Paragraph) (st : plan_state)
    (duration : Z) :
  planned_duration i paragraph total_duration crossfade_duration = Ok duration ->
  crossfade_duration <= duration ->
  forallb (distance_computed paragraph) music_library = true ->
  segments_fit crossfade_duration st ->
  exists st',
    (forall fuel, (Z.to_nat duration <= fuel)%nat ->
       process_paragraph fuel music_library music_files total_duration crossfade_duration
         i paragraph st = Ok st') /\
    segments_fit crossfade_duration st'.
Proof.
  intros Hd Hfit Hdist Hst. unfold process_paragraph. rewrite Hd. simpl.
  destruct (find_closest_loop_returns paragraph (used_music st) music_library Hdist
              infinity None) as [closest Hclosest].
  unfold find_closest_music. rewrite Hclosest. simpl.
  destruct closest as [music_file|]; [|exists st; auto].
  destruct (music_files !! music_file) as [music_segment|] eqn:Hfile; [|exists st; auto].
  destruct (loop_extend_enough music_segment duration (clips_nonempty _ _ Hfile))
    as (looped & Hloop & Hlen).
  eexists. split.
  - intros fuel Hfuel. rewrite (Hloop fuel Hfuel). simpl. reflexivity.
  - unfold segments_fit. simpl. apply Forall_app. split; [exact Hst|].
    apply Forall_singleton. rewrite len_prefix by lia. exact Hfit.
Qed.

Lemma process_paragraphs_returns (paragraphs : list Paragraph) :
  forall (i : nat) (st : plan_state),
    plans_fit total_duration crossfade_duration i paragraphs = true ->
    distances_computed paragraphs music_library = true ->
    segments_fit crossfade_duration st ->
    exists enough st',
      (forall fuel, (enough <= fuel)%nat ->
         process_paragraphs fuel music_library music_files total_duration
           crossfade_duration i paragraphs st = Ok st') /\
      segments_fit crossfade_duration st'.
Proof.
  induction paragraphs as [|p ps IH]; intros i st Hplans Hdist Hst; simpl.
  - exists 0%nat, st. auto.
  - simpl in Hplans, Hdist.
    apply andb_true_iff in Hplans as [Hplan Hplans].
    apply andb_true_iff in Hdist as [Hp Hdist].
    destruct (planned_duration i p total_duration crossfade_duration)
      as [duration| |] eqn:Hd; try discriminate Hplan.
    apply Z.leb_le in Hplan.
    destruct (process_paragraph_returns i p st duration Hd Hplan Hp Hst)
      as (st1 & Hstep & Hst1).
    destruct (IH (S i) st1 Hplans Hdist Hst1) as (enough & st' & Hrun & Hst').
    exists (Nat.max (Z.to_nat duration) enough), st'. split; [|exact Hst'].
    intros fuel Hfuel. rewrite Hstep by lia. simpl. apply Hrun. lia.
Qed.

End Returns.

(** With no crossfade, or a crossfade that fits every planned duration,
    and a fade that is positive and no longer than the target,
    [create_music_sequence] returns a buffer of the target length. *)
Lemma create_music_sequence_returns {Sample : Type} `{AudioOps Sample}
    (text_emotions : list Paragraph) (music_library : MusicLibrary) (fs : FileSystem)
    (total_duration crossfade_duration fade_duration : Z) :
  0 < fade_duration <= total_duration -> 0 <= crossfade_duration ->
  plans_fit total_duration crossfade_duration 0 text_emotions = true ->
  distances_computed text_emotions music_library = true ->
  (forall music_file audio, fs !! music_file = Some audio -> audio <> []) ->
  exists enough final_audio,
    (forall fuel, (enough <= fuel)%nat ->
       create_music_sequence fuel text_emotions music_library fs
         total_duration crossfade_duration fade_duration = Ok final_audio) /\
    Audio.len final_audio = total_duration.
Proof.
  intros Hf Hc Hplans Hdist Hfs.
  assert (Ht : 0 <= total_duration) by lia.
  destruct (process_paragraphs_returns music_library (load_music_files music_library fs)
              total_duration crossfade_duration Hc
              (fun f a Hf => Hfs f a (load_music_files_lookup _ _ _ _ Hf))
              text_emotions 0%nat initial_state Hplans Hdist (Forall_nil_2 _))
    as (enough & st & Hrun & Hst).
  unfold segments_fit in Hst.
  destruct (music_segments st) as [|first rest] eqn:Hsegs.
  - exists enough, (Audio.silent total_duration). split.
    + intros fuel Hfuel. unfold create_music_sequence. rewrite (Hrun fuel Hfuel). simpl.
      rewrite Hsegs. reflexivity.
    + apply len_silent. exact Ht.
  - apply Forall_cons in Hst as [Hfirst Hrest].
    destruct (join_fits rest first crossfade_duration Hc Hfirst Hrest) as (joined & Hjoin & _).
    eexists enough, _. split.
    + intros fuel Hfuel. unfold create_music_sequence. rewrite (Hrun fuel Hfuel). simpl.
      rewrite Hsegs, assemble_faded, Hjoin by lia. reflexivity.
    + apply len_faded_adjust. lia.
Qed.

(** ** The mixing step *)

Section Mixing.
Context {Sample : Type} `{AudioOps Sample}.
Import Audio.

Lemma fit_ambient_returns (ambient_sound : list Sample) :
  ambient_sound <> [] ->
  exists fitted,
    (forall fuel, (Z.to_nat 60000 <= fuel)%nat -> fit_ambient fuel ambient_sound = Ok fitted) /\
    len fitted = 60000.
Proof.
  intros Hne. unfold fit_ambient.
  destruct (Z.gtb_spec (len ambient_sound) 60000) as [Hgt|Hle].
  - eexists. split; [reflexivity|]. apply len_prefix. lia.
  - destruct (Z.ltb_spec (len ambient_sound) 60000) as [Hlt|Hge].
    + destruct (loop_extend_enough ambient_sound 60000 Hne) as (looped & Hloop & Hlen).
      exists (prefix looped 60000). split.
      * intros fuel Hfuel. rewrite Hloop by lia. reflexivity.
      * apply len_prefix. lia.
    + exists ambient_sound. split; [reflexivity|lia].
Qed.

(** The two fades of [main] last 3000 ms: their calls return the data. *)
Lemma mix_faded (fuel : nat) (log10_pos : float -> float)
    (final_audio ambient_sound : list Sample) (ambient_volume music_volume : float) :
  mix fuel log10_pos final_audio ambient_sound ambient_volume music_volume
  = (fitted ← fit_ambient fuel ambient_sound;
     Ok (overlay
           (apply_gain final_audio (volume_to_db log10_pos music_volume))
           (apply_gain (fade_out 3000 (fade_in 3000 fitted))
                       (volume_to_db log10_pos ambient_volume)))).
Proof.
  unfold mix. destruct (fit_ambient fuel ambient_sound) as [fitted| |]; reflexivity.
Qed.

(** What [mix] returns: the music at its gain, overlaid with the fitted
    and faded ambient sound at its gain. *)
Lemma mix_inv (fuel : nat) (log10_pos : float -> float)
    (final_audio ambient_sound mixed : list Sample) (ambient_volume music_volume : float) :
  mix fuel log10_pos final_audio ambient_sound ambient_volume music_volume = Ok mixed ->
  exists fitted,
    fit_ambient fuel ambient_sound = Ok fitted /\
    mixed = overlay
              (apply_gain final_audio (volume_to_db log10_pos music_volume))
              (apply_gain (fade_out 3000 (fade_in 3000 fitted))
                          (volume_to_db log10_pos ambient_volume)).
Proof.
  rewrite mix_faded. destruct (fit_ambient fuel ambient_sound) as [fitted| |]; simpl;
    try discriminate.
  intros [= <-]. exists fitted. split; reflexivity.
Qed.

Lemma mix_returns (log10_pos : float -> float)
    (final_audio ambient_sound : list Sample) (ambient_volume music_volume : float) :
  ambient_sound <> [] ->
  exists mixed,
    (forall fuel, (Z.to_nat 60000 <= fuel)%nat ->
       mix fuel log10_pos final_audio ambient_sound ambient_volume music_volume
       = Ok mixed) /\
    len mixed = len final_audio.
Proof.
  intros Hne. destruct (fit_ambient_returns ambient_sound Hne) as (fitted & Hfit & _).
  eexists. split.
  - intros fuel Hfuel. rewrite mix_faded, (Hfit fuel Hfuel). reflexivity.
  - rewrite len_overlay, len_apply_gain. reflexivity.
Qed.

(** [main] returns when [create_music_sequence] does and no ambient file
    is empty; without any ambient file the music alone is the output. *)
Lemma main_returns (log10_pos : float -> float)
    (text_emotions : list Paragraph) (music_library : MusicLibrary) (fs : FileSystem)
    (ambience : list (list Sample)) (choice : nat) (ambient_volume music_volume : float) :
  plans_fit 60000 5000 0 text_emotions = true ->
  distances_computed text_emotions music_library = true ->
  (forall music_file audio, fs !! music_file = Some audio -> audio <> []) ->
  Forall (fun ambient_sound => ambient_sound <> []) ambience ->
  exists enough out,
    (forall fuel, (enough <= fuel)%nat ->
       main fuel log10_pos text_emotions music_library fs ambience choice
         ambient_volume music_volume = Ok out) /\
    len (generated_music out) = 60000 /\
    len (final_output_audio out) = 60000 /\
    (ambience = [] -> final_output_audio out = generated_music out).
Proof.
  intros Hplans Hdist Hfs Hamb.
  destruct (create_music_sequence_returns text_emotions music_library fs 60000 5000 3000)
    as (enough & final_audio & Hseq & Hlen); try assumption; try lia.
  unfold main.
  destruct (ambience !! (choice `mod` length ambience)%nat) as [ambient_sound|] eqn:Hchoice.
  - assert (Hne : ambient_sound <> []).
    { rewrite Forall_forall in Hamb. apply Hamb.
      apply list_elem_of_lookup. eexists. exact Hchoice. }
    destruct (mix_returns log10_pos final_audio ambient_sound ambient_volume music_volume Hne)
      as (mixed & Hmix & Hmixed).
    exists (Nat.max enough (Z.to_nat 60000)), {| generated_music := final_audio;
                                        final_output_audio := mixed |}.
    split; [|split; [|split]].
    + intros fuel Hfuel. rewrite Hseq by lia. simpl. rewrite Hmix by lia. reflexivity.
    + exact Hlen.
    + simpl. lia.
    + intros ->. rewrite lookup_nil in Hchoice. discriminate.
  - exists enough, {| generated_music := final_audio; final_output_audio := final_audio |}.
    split; [|split; [|split]].
    + intros fuel Hfuel. rewrite Hseq by lia. reflexivity.
    + exact Hlen.
    + exact Hlen.
    + reflexivity.
Qed.

End Mixing.

(** ** The decibel conversion *)

Lemma SFeqb_zero (x : spec_float) (s : bool) :
  SFeqb x (S754_zero s) = true -> exists s', x = S754_zero s'.
Proof.
  unfold SFeqb. destruct x as [s'|[]| |[] m e]; simpl; try discriminate.
  intros _. exists s'. reflexivity.
Qed.

Lemma is_zero_not_nan (x : float) :
  PrimFloat.is_zero x = true -> PrimFloat.is_nan x = false.
Proof.
  unfold PrimFloat.is_zero, PrimFloat.is_nan. rewrite !FloatAxioms.eqb_spec.
  change (Prim2SF 0) with (S754_zero false).
  intros Hz. apply SFeqb_zero in Hz as [s ->]. reflexivity.
Qed.

Lemma negative_not_nan_not_zero (x : float) :
  PrimFloat.ltb x 0 = true ->
  PrimFloat.is_nan x = false /\ PrimFloat.is_zero x = false.
Proof.
  unfold PrimFloat.is_zero, PrimFloat.is_nan. rewrite FloatAxioms.ltb_spec, !FloatAxioms.eqb_spec.
  change (Prim2SF 0) with (S754_zero false).
  unfold SFltb, SFeqb.
  destruct (Prim2SF x) as [s|[]| |[] m e]; simpl; try discriminate; intros _;
    try (split; reflexivity);
    rewrite Z.compare_refl; change (Pos.compare_cont Eq m m) with (Pos.compare m m);
    rewrite Pos.compare_refl; split; reflexivity.
Qed.

(** The conversion of a zero volume is minus infinity, that of a negative
    volume is NaN. *)
Lemma volume_to_db_zero (log10_pos : float -> float) (volume : float) :
  PrimFloat.is_zero volume = true -> volume_to_db log10_pos volume = neg_infinity.
Proof.
  intros Hz. unfold volume_to_db, np_log10.
  rewrite (is_zero_not_nan _ Hz), Hz. reflexivity.
Qed.

Lemma volume_to_db_negative (log10_pos : float -> float) (volume : float) :
  PrimFloat.ltb volume 0 = true ->
  PrimFloat.is_nan (volume_to_db log10_pos volume) = true.
Proof.
  intros Hneg. unfold volume_to_db, np_log10.
  destruct (negative_not_nan_not_zero _ Hneg) as [-> ->]. rewrite Hneg. reflexivity.
Qed.


Lemma fs_ab_nonempty (music_file : string) (audio : list chunk) :
  fs_ab !! music_file = Some audio -> audio <> [].
Proof.
  unfold fs_ab. intros Hf.
  apply lookup_insert_Some in Hf as [[_ <-]|[_ Hf]]; [discriminate|].
  apply lookup_singleton_Some in Hf as [_ <-]. discriminate.
Qed.



(** C7, as amended: the mixer converts every volume [v] by
    [20 * log10(v)], with no case for [v <= 0]: a zero volume gives the
    gain minus infinity, a negative volume the gain NaN, and [mix] applies
    the gain it computed to every chunk of the music and of the ambient
    sound. *)
Theorem volume_conversion_not_guarded {Sample : Type} `{AudioOps Sample}
    (log10_pos : float -> float) :
  (forall volume, PrimFloat.is_zero volume = true ->
     volume_to_db log10_pos volume = neg_infinity) /\
  (forall volume, PrimFloat.ltb volume 0 = true ->
     PrimFloat.is_nan (volume_to_db log10_pos volume) = true) /\
  (forall fuel (final_audio ambient_sound mixed : list Sample)
          (ambient_volume music_volume : float),
     mix fuel log10_pos final_audio ambient_sound ambient_volume music_volume = Ok mixed ->
     exists fitted,
       fit_ambient fuel ambient_sound = Ok fitted /\
       mixed = Audio.overlay
                 (map (gain (volume_to_db log10_pos music_volume)) final_audio)
                 (map (gain (volume_to_db log10_pos ambient_volume))
                      (Audio.fade_out 3000 (Audio.fade_in 3000 fitted)))).
Proof.
  split; [|split].
  - intros. apply volume_to_db_zero. assumption.
  - intros. apply volume_to_db_negative. assumption.
  - intros fuel final_audio ambient_sound mixed av mv Hmix.
    apply mix_inv in Hmix as (fitted & Hfit & ->). exists fitted. split; [exact Hfit|].
    reflexivity.
Qed.

(** C7 as stated fails: for the volume 0.0 the conversion is computed, it
    is minus infinity, which is not finite, and it is the gain applied to
    the chunks. *)
Lemma zero_volume_gives_infinite_gain :
  (fun log10_pos => volume_to_db log10_pos 0) = (fun _ => neg_infinity) /\
  is_finite neg_infinity = false /\
  (fun log10_pos => Audio.apply_gain [Clip "m.wav" 0] (volume_to_db log10_pos 0))
  = (fun _ => [Gained neg_infinity (Clip "m.wav" 0)]).
Proof. repeat split; reflexivity. Qed.

(** * Further properties of the code *)

(** ** More on the order of binary64 *)

Lemma SFltb_irrefl (x : spec_float) : SFltb x x = false.
Proof.
  unfold SFltb. destruct x as [[]|[]| |[] m e]; simpl; try reflexivity;
    rewrite Z.compare_refl; change (Pos.compare_cont Eq m m) with (Pos.compare m m);
    rewrite Pos.compare_refl; reflexivity.
Qed.

Lemma SFltb_not_leb (x y : spec_float) : SFltb x y = true -> SFleb y x = false.
Proof.
  unfold SFltb, SFleb.
  destruct x as [[]|[]| |[] mx ex], y as [[]|[]| |[] my ey];
    simpl; try congruence;
    change (Pos.compare_cont Eq) with Pos.compare;
    repeat match goal with
           | |- context [Z.compare ?a ?b] => destruct (Z.compare_spec a b)
           | |- context [Pos.compare ?a ?b] => destruct (Pos.compare_spec a b)
           end; simpl; try congruence; try lia.
Qed.

Lemma SFleb_ltb_trans (x y z : spec_float) :
  SFleb x y = true -> SFltb y z = true -> SFltb x z = true.
Proof.
  unfold SFltb, SFleb.
  destruct x as [[]|[]| |[] mx ex], y as [[]|[]| |[] my ey], z as [[]|[]| |[] mz ez];
    simpl; try congruence;
    change (Pos.compare_cont Eq) with Pos.compare;
    repeat match goal with
           | |- context [Z.compare ?a ?b] => destruct (Z.compare_spec a b)
           | |- context [Pos.compare ?a ?b] => destruct (Pos.compare_spec a b)
           end; simpl; try congruence; try lia.
Qed.

Lemma float_ltb_irrefl (x : float) : PrimFloat.ltb x x = false.
Proof. rewrite FloatAxioms.ltb_spec. apply SFltb_irrefl. Qed.

Lemma float_ltb_not_leb (x y : float) :
  PrimFloat.ltb x y = true -> PrimFloat.leb y x = false.
Proof. rewrite FloatAxioms.ltb_spec, FloatAxioms.leb_spec. apply SFltb_not_leb. Qed.

Lemma float_leb_ltb_trans (x y z : float) :
  PrimFloat.leb x y = true -> PrimFloat.ltb y z = true -> PrimFloat.ltb x z = true.
Proof. rewrite !FloatAxioms.ltb_spec, FloatAxioms.leb_spec. apply SFleb_ltb_trans. Qed.

Lemma float_ltb_asym (x y : float) :
  PrimFloat.ltb x y = true -> PrimFloat.ltb y x = false.
Proof.
  intros Hxy. destruct (PrimFloat.ltb y x) eqn:Hyx; [|reflexivity].
  pose proof (F.ltb_trans _ _ _ Hxy Hyx) as Hxx. rewrite float_ltb_irrefl in Hxx.
  discriminate Hxx.
Qed.

(** ** The matcher on any floats *)

Lemma py_pow2_outcomes (x : float) :
  (exists r, py_pow2 x = Ok r) \/ py_pow2 x = Raise OverflowError.
Proof.
  unfold py_pow2. destruct (is_finite x && PrimFloat.is_infinity (PrimFloat.mul x x)).
  - right. reflexivity.
  - left. eexists. reflexivity.
Qed.

(** The distance is computed or its square overflows: nothing else. *)
Lemma distance_outcomes (target music_emotions : EmotionPoint) :
  (exists d, distance target music_emotions = Ok d) \/
  distance target music_emotions = Raise OverflowError.
Proof.
  unfold distance.
  destruct (py_pow2_outcomes (PrimFloat.sub (valence target) (valence music_emotions)))
    as [[dv ->]| ->]; simpl; [|right; reflexivity].
  destruct (py_pow2_outcomes (PrimFloat.sub (arousal target) (arousal music_emotions)))
    as [[da ->]| ->]; simpl; [|right; reflexivity].
  left. eexists. reflexivity.
Qed.

Section MatcherAnyFloats.
Variable target : EmotionPoint.
Variable used : gset string.

(** The loop, from any values of its variables, either keeps
    [closest_music], no candidate being below [min_distance], or returns a
    candidate below [min_distance] than which no candidate is nearer, the
    candidates before it being neither nearer nor at the same distance. *)
Lemma find_closest_loop_sound (items : MusicLibrary) :
  forall (min_distance : float) (closest_music r : option string),
    is_num min_distance ->
    find_closest_loop target items used min_distance closest_music = Ok r ->
    (r = closest_music /\
     forall j g e d, items !! j = Some (g, e) -> g ∉ used -> distance target e = Ok d ->
                     PrimFloat.ltb d min_distance = false)
    \/
    (exists k f e d,
       r = Some f /\ items !! k = Some (f, e) /\ (f ∉ used) /\
       distance target e = Ok d /\ PrimFloat.ltb d min_distance = true /\
       forall j g e' d', items !! j = Some (g, e') -> g ∉ used ->
         distance target e' = Ok d' ->
         PrimFloat.ltb d' d = false /\ ((j < k)%nat -> PrimFloat.leb d' d = false)).
Proof.
  induction items as [|[f0 e0] rest IH]; intros m c r Hm Hr; simpl in Hr.
  - injection Hr as <-. left. split; [reflexivity|].
    intros j ? ? ? Hj. destruct j; discriminate Hj.
  - destruct (decide (f0 ∈ used)) as [Hin|Hnin].
    + destruct (IH m c r Hm Hr)
        as [[-> Hall]|(k & f & e & d & -> & Hk & Hn & Hd & Hlt & Hnear)].
      * left. split; [reflexivity|]. intros [|j] g e' d' Hj Hg Hd'.
        -- simpl in Hj. injection Hj as <- <-. contradiction.
        -- exact (Hall j g e' d' Hj Hg Hd').
      * right. exists (S k), f, e, d.
        split; [reflexivity|]. split; [exact Hk|]. split; [exact Hn|].
        split; [exact Hd|]. split; [exact Hlt|].
        intros [|j] g e' d' Hj Hg Hd'.
        -- simpl in Hj. injection Hj as <- <-. contradiction.
        -- destruct (Hnear j g e' d' Hj Hg Hd') as [Hno Hbefore].
           split; [exact Hno|]. intros Hjk. apply Hbefore. lia.
    + destruct (distance target e0) as [d0| |] eqn:Hd0; simpl in Hr; try discriminate Hr.
      destruct (PrimFloat.ltb d0 m) eqn:Hd0m.
      * pose proof (F.ltb_num_l _ _ Hd0m) as Hnum. right.
        destruct (IH d0 (Some f0) r Hnum Hr)
          as [[-> Hall]|(k & f & e & d & -> & Hk & Hn & Hd & Hlt & Hnear)].
        -- exists 0%nat, f0, e0, d0.
           split; [reflexivity|]. split; [reflexivity|]. split; [exact Hnin|].
           split; [exact Hd0|]. split; [exact Hd0m|].
           intros [|j] g e' d' Hj Hg Hd'.
           ++ simpl in Hj. injection Hj as <- <-. rewrite Hd0 in Hd'. injection Hd' as <-.
              split; [apply float_ltb_irrefl|lia].
           ++ split; [exact (Hall j g e' d' Hj Hg Hd')|lia].
        -- exists (S k), f, e, d.
           split; [reflexivity|]. split; [exact Hk|]. split; [exact Hn|].
           split; [exact Hd|]. split; [exact (F.ltb_trans _ _ _ Hlt Hd0m)|].
           intros [|j] g e' d' Hj Hg Hd'.
           ++ simpl in Hj. injection Hj as <- <-. rewrite Hd0 in Hd'. injection Hd' as <-.
              split; [exact (float_ltb_asym _ _ Hlt)|intros _; exact (float_ltb_not_leb _ _ Hlt)].
           ++ destruct (Hnear j g e' d' Hj Hg Hd') as [Hno Hbefore].
              split; [exact Hno|]. intros Hjk. apply Hbefore. lia.
      * destruct (IH m c r Hm Hr)
          as [[-> Hall]|(k & f & e & d & -> & Hk & Hn & Hd & Hlt & Hnear)].
        -- left. split; [reflexivity|]. intros [|j] g e' d' Hj Hg Hd'.
           ++ simpl in Hj. injection Hj as <- <-. rewrite Hd0 in Hd'. injection Hd' as <-.
              exact Hd0m.
           ++ exact (Hall j g e' d' Hj Hg Hd').
        -- right. exists (S k), f, e, d.
           split; [reflexivity|]. split; [exact Hk|]. split; [exact Hn|].
           split; [exact Hd|]. split; [exact Hlt|].
           intros [|j] g e' d' Hj Hg Hd'.
           ++ simpl in Hj. injection Hj as <- <-. rewrite Hd0 in Hd'. injection Hd' as <-.
              split.
              ** destruct (PrimFloat.ltb d0 d) eqn:Hd0d; [|reflexivity].
                 rewrite (F.ltb_trans _ _ _ Hd0d Hlt) in Hd0m. discriminate Hd0m.
              ** intros _. destruct (PrimFloat.leb d0 d) eqn:Hle; [|reflexivity].
                 rewrite (float_leb_ltb_trans _ _ _ Hle Hlt) in Hd0m. discriminate Hd0m.
           ++ destruct (Hnear j g e' d' Hj Hg Hd') as [Hno Hbefore].
              split; [exact Hno|]. intros Hjk. apply Hbefore. lia.
Qed.

(** The loop raises exactly when the square of a candidate overflows, and
    only OverflowError. *)
Lemma find_closest_loop_raises (items : MusicLibrary) :
  forall (min_distance : float) (closest_music : option string),
    (exists r, find_closest_loop target items used min_distance closest_music = Ok r /\
               forall item, item ∈ items -> item.1 ∉ used ->
                            exists d, distance target item.2 = Ok d)
    \/
    (find_closest_loop target items used min_distance closest_music = Raise OverflowError /\
     exists item, item ∈ items /\ (item.1 ∉ used) /\
                  distance target item.2 = Raise OverflowError).
Proof.
  induction items as [|[f0 e0] rest IH]; intros m c; simpl.
  - left. exists c. split; [reflexivity|]. intros item Hin. inversion Hin.
  - destruct (decide (f0 ∈ used)) as [Hin|Hnin].
    + destruct (IH m c) as [(r & Hr & Hall)|(Hr & item & Hitem & Hn & Hd)].
      * left. exists r. split; [exact Hr|]. intros item Hitem Hn.
        apply elem_of_cons in Hitem as [->|Hitem]; [contradiction|]. exact (Hall item Hitem Hn).
      * right. split; [exact Hr|]. exists item. split; [|auto].
        apply elem_of_cons. right. exact Hitem.
    + destruct (distance_outcomes target e0) as [[d0 Hd0]|Hd0]; rewrite Hd0; simpl.
      * assert (Hcase : forall m' c',
                  (exists r, find_closest_loop target rest used m' c' = Ok r /\
                     forall item, item ∈ rest -> item.1 ∉ used ->
                                  exists d, distance target item.2 = Ok d) \/
                  (find_closest_loop target rest used m' c' = Raise OverflowError /\
                   exists item, item ∈ rest /\ (item.1 ∉ used) /\
                                distance target item.2 = Raise OverflowError)) by exact IH.
        destruct (PrimFloat.ltb d0 m);
          [destruct (Hcase d0 (Some f0)) as [(r & Hr & Hall)|(Hr & item & Hitem & Hn & Hd)]
          |destruct (Hcase m c) as [(r & Hr & Hall)|(Hr & item & Hitem & Hn & Hd)]].
        -- left. exists r. split; [exact Hr|]. intros item Hitem Hn.
           apply elem_of_cons in Hitem as [->|Hitem]; [eauto|exact (Hall item Hitem Hn)].
        -- right. split; [exact Hr|]. exists item. split; [|auto].
           apply elem_of_cons. right. exact Hitem.
        -- left. exists r. split; [exact Hr|]. intros item Hitem Hn.
           apply elem_of_cons in Hitem as [->|Hitem]; [eauto|exact (Hall item Hitem Hn)].
        -- right. split; [exact Hr|]. exists item. split; [|auto].
           apply elem_of_cons. right. exact Hitem.
      * right. split; [reflexivity|]. exists (f0, e0). split; [|auto].
        apply elem_of_cons. left. reflexivity.
Qed.

(** The excluded items can be removed from the library beforehand. *)
Lemma find_closest_loop_filter (items : list (string * EmotionPoint)) :
  forall (min_distance : float) (closest_music : option string),
    find_closest_loop target items used min_distance closest_music
    = find_closest_loop target (filter (fun item => item.1 ∉ used) items) ∅
        min_distance closest_music.
Proof.
  induction items as [|[f0 e0] rest IH]; intros m c; [reflexivity|].
  destruct (decide (f0 ∈ used)) as [Hin|Hnin] eqn:Hdec.
  - rewrite filter_cons_False by (simpl; auto). simpl. rewrite Hdec. apply IH.
  - rewrite filter_cons_True by exact Hnin. simpl. rewrite Hdec.
    destruct (decide (f0 ∈ (∅ : gset string))) as [Hempty|_];
      [apply not_elem_of_empty in Hempty; contradiction|].
    destruct (distance target e0) as [d0| |]; simpl; try reflexivity.
    destruct (PrimFloat.ltb d0 m); apply IH.
Qed.

End MatcherAnyFloats.

(** X1: whatever the floats of the library are (NaN and infinities
    included), a name returned by [find_closest_music] is an item of the
    library that is not excluded, whose distance is computed and below
    infinity; no candidate is strictly nearer, and no candidate before it
    in the iteration order is as near.  When [None] is returned, no
    candidate has a distance below infinity. *)
Theorem find_closest_music_no_nearer (target : EmotionPoint)
    (music_library : MusicLibrary) (used : gset string) (r : option string) :
  find_closest_music target music_library used = Ok r ->
  match r with
  | Some music_file =>
      exists k e d,
        music_library !! k = Some (music_file, e) /\ (music_file ∉ used) /\
        distance target e = Ok d /\ PrimFloat.ltb d infinity = true /\
        forall j g e' d', music_library !! j = Some (g, e') -> g ∉ used ->
          distance target e' = Ok d' ->
          PrimFloat.ltb d' d = false /\ ((j < k)%nat -> PrimFloat.leb d' d = false)
  | None =>
      forall j g e d, music_library !! j = Some (g, e) -> g ∉ used ->
        distance target e = Ok d -> PrimFloat.ltb d infinity = false
  end.
Proof.
  intros Hr.
  destruct (find_closest_loop_sound target used music_library infinity None r
              F.infinity_num Hr)
    as [[-> Hall]|(k & f & e & d & -> & Hk & Hn & Hd & Hlt & Hnear)].
  - exact Hall.
  - exists k, e, d. auto.
Qed.

(** A library with a NaN and an infinite valence, and two clips at the
    same distance 0.5: the first of the two is returned. *)
Lemma find_closest_music_no_nearer_witness :
  let target := {| valence := 0; arousal := 0 |} in
  let music_library :=
    [("n.wav"%string, {| valence := nan; arousal := 0 |});
     ("i.wav"%string, {| valence := infinity; arousal := 0 |});
     ("a.wav"%string, {| valence := 0.5; arousal := 0 |});
     ("b.wav"%string, {| valence := 0; arousal := 0.5 |})] in
  find_closest_music target music_library ∅ = Ok (Some "a.wav"%string) /\
  exists k e d,
    music_library !! k = Some ("a.wav"%string, e) /\
    ("a.wav"%string ∉ (∅ : gset string)) /\
    distance target e = Ok d /\ PrimFloat.ltb d infinity = true /\
    forall j g e' d', music_library !! j = Some (g, e') -> g ∉ (∅ : gset string) ->
      distance target e' = Ok d' ->
      PrimFloat.ltb d' d = false /\ ((j < k)%nat -> PrimFloat.leb d' d = false).
Proof.
  cbv zeta. split; [reflexivity|].
  apply (find_closest_music_no_nearer _ _ _ (Some "a.wav"%string)). reflexivity.
Defined.

(** X2: [find_closest_music] always returns or raises OverflowError, and
    it raises exactly when the library has an item that is not excluded
    and whose distance overflows in a square. *)
Theorem find_closest_music_raises (target : EmotionPoint)
    (music_library : MusicLibrary) (used : gset string) :
  ((exists r, find_closest_music target music_library used = Ok r) \/
   find_closest_music target music_library used = Raise OverflowError) /\
  (find_closest_music target music_library used = Raise OverflowError <->
   exists item, item ∈ music_library /\ (item.1 ∉ used) /\
                distance target item.2 = Raise OverflowError).
Proof.
  unfold find_closest_music.
  destruct (find_closest_loop_raises target used music_library infinity None)
    as [(r & Hr & Hall)|(Hr & Hitem)].
  - split; [left; eauto|]. rewrite Hr. split; [discriminate|].
    intros (item & Hin & Hn & Hd). destruct (Hall item Hin Hn) as [d Hok].
    rewrite Hok in Hd. discriminate Hd.
  - split; [right; exact Hr|]. rewrite Hr. split; [intros _; exact Hitem|reflexivity].
Qed.

(** X3: the exclusion set acts as a filter on the library: the result is
    that of the matcher run, without exclusions, on the items whose name
    is not excluded. *)
Theorem find_closest_music_filter (target : EmotionPoint)
    (music_library : MusicLibrary) (used : gset string) :
  find_closest_music target music_library used
  = find_closest_music target (filter (fun item => item.1 ∉ used) music_library) ∅.
Proof. unfold find_closest_music. apply find_closest_loop_filter. Qed.

(** X4: when every item of the library is excluded (an empty library
    included), [find_closest_music] returns [None]; no distance is
    computed, so no float of the library can make it raise. *)
Theorem find_closest_music_all_excluded (target : EmotionPoint)
    (music_library : MusicLibrary) (used : gset string) :
  forallb (excluded used) music_library = true ->
  find_closest_music target music_library used = Ok None.
Proof.
  unfold find_closest_music. generalize infinity, (@None string).
  induction music_library as [|[f e] rest IH]; intros m c Hall; simpl; [reflexivity|].
  simpl in Hall. apply andb_true_iff in Hall as [Hf Hrest].
  unfold excluded in Hf. simpl in Hf. apply bool_decide_eq_true in Hf.
  destruct (decide (f ∈ used)); [|contradiction]. apply IH. exact Hrest.
Qed.

(** Both clips of the library are used; the target is not even a number. *)
Lemma find_closest_music_all_excluded_witness :
  let used : gset string := {[ "a.wav"%string; "b.wav"%string ]} in
  forallb (excluded used) library_ab = true /\
  find_closest_music {| valence := nan; arousal := nan |} library_ab used = Ok None.
Proof.
  cbv zeta. split; [reflexivity|].
  apply find_closest_music_all_excluded. reflexivity.
Defined.

(** ** The loaded clips *)

Section Loading.
Context {Sample : Type} `{AudioOps Sample}.

Lemma load_music_files_from (music_library : MusicLibrary) (fs : FileSystem) :
  forall (acc : gmap string (list Sample)) (music_file : string) (audio : list Sample),
    (forall k a, acc !! k = Some a -> fs !! k = Some a) ->
    (foldl (fun music_files item =>
              match fs !! item.1 with
              | Some audio => <[item.1 := audio]> music_files
              | None => music_files
              end) acc music_library !! music_file = Some audio
     <-> (music_file ∈ music_library.*1 /\ fs !! music_file = Some audio) \/
         acc !! music_file = Some audio).
Proof.
  induction music_library as [|[g e] rest IH]; intros acc f a Hacc; simpl.
  - split; [auto|]. intros [[Hin _]|Hf]; [inversion Hin|exact Hf].
  - rewrite IH.
    + rewrite elem_of_cons.
      destruct (fs !! g) as [ag|] eqn:Hg.
      * destruct (decide (g = f)) as [->|Hne].
        -- rewrite lookup_insert_eq. split.
           ++ intros [[Hin Hf]|Hf]; [left; auto|]. left. split; [auto|congruence].
           ++ intros [[_ Hf]|Hf]; [right; congruence|].
              right. rewrite (Hacc _ _ Hf) in Hg. congruence.
        -- rewrite lookup_insert_ne by exact Hne. split.
           ++ intros [[Hin Hf]|Hf]; [left; auto|right; exact Hf].
           ++ intros [[[->|Hin] Hf]|Hf]; [contradiction|left; auto|right; exact Hf].
      * split.
        -- intros [[Hin Hf]|Hf]; [left; auto|right; exact Hf].
        -- intros [[[->|Hin] Hf]|Hf]; [congruence|left; auto|right; exact Hf].
    + intros k a'. destruct (fs !! g) as [ag|] eqn:Hg; [|apply Hacc].
      destruct (decide (g = k)) as [<-|Hne].
      * rewrite lookup_insert_eq. congruence.
      * rewrite lookup_insert_ne by exact Hne. apply Hacc.
Qed.

(** X5: the loaded clips are exactly the decoded files named by the
    library: [music_files] has a clip under a name when, and only when,
    the name is a key of the library and its file exists, and the clip is
    the content of that file. *)
Theorem load_music_files_spec (music_library : MusicLibrary) (fs : FileSystem)
    (music_file : string) (audio : list Sample) :
  load_music_files music_library fs !! music_file = Some audio
  <-> music_file ∈ music_library.*1 /\ fs !! music_file = Some audio.
Proof.
  unfold load_music_files. rewrite load_music_files_from.
  - rewrite lookup_empty. split; [intros [?|[=]]; assumption|auto].
  - intros k a. rewrite lookup_empty. discriminate.
Qed.

End Loading.

(** ** Joining and looping *)

Section Joining.
Context {Sample : Type} `{AudioOps Sample}.
Import Audio.

(** [append] returns a segment or raises ValueError; what it returns has
    the length of the crossfade law. *)
Lemma append_cases (seg1 seg2 : list Sample) (crossfade : Z) :
  0 <= crossfade ->
  (exists out, append seg1 seg2 crossfade = Ok out /\
               len out = len seg1 + len seg2 - crossfade /\
               (crossfade = 0 \/ (crossfade <= len seg1 /\ crossfade <= len seg2)))
  \/
  (append seg1 seg2 crossfade = Raise ValueError /\ crossfade <> 0 /\
   (len seg1 < crossfade \/ len seg2 < crossfade)).
Proof.
  intros Hc. destruct (Z.eq_dec crossfade 0) as [->|Hne].
  - left. exists (seg1 ++ seg2). split; [reflexivity|]. rewrite len_app.
    split; [lia|left; reflexivity].
  - destruct (Z_lt_le_dec (len seg1) crossfade) as [Hl|Hl].
    { right. split; [apply append_too_long; auto|auto]. }
    destruct (Z_lt_le_dec (len seg2) crossfade) as [Hr|Hr].
    { right. split; [apply append_too_long; auto|auto]. }
    left. destruct (append_fits seg1 seg2 crossfade Hc Hl Hr) as (out & Hout & Hlen).
    exists out. split; [exact Hout|]. split; [exact Hlen|right; split; assumption].
Qed.

Lemma join_len (segments : list (list Sample)) :
  forall (final_audio out : list Sample) (crossfade_duration : Z),
    0 <= crossfade_duration ->
    join final_audio segments crossfade_duration = Ok out ->
    len out = len final_audio + sumZ (map len segments)
              - crossfade_duration * Z.of_nat (length segments).
Proof.
  induction segments as [|segment rest IH]; intros acc out c Hc Hout; simpl in Hout.
  - injection Hout as <-. simpl. lia.
  - destruct (append_cases acc segment c Hc) as [(acc' & Happ & Hlen & _)|(Happ & _)];
      rewrite Happ in Hout; simpl in Hout; [|discriminate Hout].
    rewrite (IH acc' out c Hc Hout), Hlen. simpl. lia.
Qed.

(** X6: the length of a join that returns: the lengths of the accumulator
    and of the segments appended, less one crossfade for each segment
    appended. *)
Theorem join_length (final_audio out : list Sample) (segments : list (list Sample))
    (crossfade_duration : Z) :
  0 <= crossfade_duration ->
  join final_audio segments crossfade_duration = Ok out ->
  len out = len final_audio + sumZ (map len segments)
            - crossfade_duration * Z.of_nat (length segments).
Proof. apply join_len. Qed.

(** X7: when the joins return.  For a crossfade [c >= 0], the join of an
    accumulator with a list of segments returns exactly when [c] is zero,
    or there is nothing to append, or [c] is at most the length of the
    accumulator and of every segment; otherwise it raises ValueError. *)
Theorem join_returns_iff_fits (segments : list (list Sample)) :
  forall (final_audio : list Sample) (crossfade_duration : Z),
    0 <= crossfade_duration ->
    ((exists out, join final_audio segments crossfade_duration = Ok out) <->
     (crossfade_duration = 0 \/ segments = [] \/
      (crossfade_duration <= len final_audio /\
       Forall (fun segment => crossfade_duration <= len segment) segments))) /\
    ((exists out, join final_audio segments crossfade_duration = Ok out) \/
     join final_audio segments crossfade_duration = Raise ValueError).
Proof.
  induction segments as [|segment rest IH]; intros acc c Hc; simpl.
  - split; [|left; eauto]. split; [auto|]. intros _. eauto.
  - destruct (append_cases acc segment c Hc)
      as [(acc' & Happ & Hlen & Hfit)|(Happ & Hne & Hshort)]; rewrite Happ; simpl.
    + destruct (IH acc' c Hc) as [Hiff Htotal]. split; [|exact Htotal].
      rewrite Hiff. split.
      * intros [->|[->|[Hacc' Hrest]]].
        -- left. reflexivity.
        -- destruct Hfit as [->|[Ha Hs]]; [left; reflexivity|].
           right. right. split; [exact Ha|]. apply Forall_cons. split; [exact Hs|constructor].
        -- destruct Hfit as [->|[Ha Hs]]; [left; reflexivity|].
           right. right. split; [exact Ha|]. apply Forall_cons. split; assumption.
      * intros [->|[[=]|[Ha Hall]]]; [left; reflexivity|].
        apply Forall_cons in Hall as [Hs Hrest]. right. right. split; [lia|exact Hrest].
    + split; [|right; reflexivity]. split; [intros [out [=]]|].
      intros [->|[[=]|[Ha Hall]]]; [contradiction|].
      apply Forall_cons in Hall as [Hs _]. lia.
Qed.

(** Doubling a segment that repeats [source] a whole number of times
    repeats [source]. *)
Lemma cyclic_concat (source cur : list Sample) (k : nat) :
  length cur = (k * length source)%nat -> cyclic source cur ->
  cyclic source (concat cur cur).
Proof.
  intros Hlen Hcur j Hj. unfold concat in *. rewrite length_app in Hj.
  destruct (Nat.lt_ge_cases j (length cur)) as [Hlt|Hge].
  - rewrite lookup_app_l by exact Hlt. apply Hcur. exact Hlt.
  - rewrite lookup_app_r by exact Hge. rewrite Hcur by lia.
    f_equal. replace j with ((j - length cur) + k * length source)%nat at 2 by lia.
    rewrite Nat.Div0.mod_add. reflexivity.
Qed.

Lemma loop_extend_from (source : list Sample) (duration : Z) (fuel : nat) :
  forall (cur looped : list Sample) (k : nat),
    length cur = (2 ^ k * length source)%nat -> cyclic source cur ->
    loop_extend fuel cur duration = Ok looped ->
    cyclic source looped /\ duration <= len looped /\
    (exists k', length looped = (2 ^ k' * length source)%nat) /\
    (len cur < duration -> len looped < 2 * duration).
Proof.
  induction fuel as [|fuel IH]; intros cur looped k Hlen Hcyc Hloop; simpl in Hloop;
    destruct (Z.ltb_spec (len cur) duration) as [Hlt|Hge]; try discriminate Hloop.
  - injection Hloop as <-. split; [exact Hcyc|]. split; [exact Hge|].
    split; [eauto|lia].
  - assert (Hlen2 : length (concat cur cur) = (2 ^ S k * length source)%nat).
    { unfold concat. rewrite length_app, Hlen. simpl. lia. }
    destruct (IH (concat cur cur) looped (S k) Hlen2 (cyclic_concat _ _ _ Hlen Hcyc) Hloop)
      as (Hc & Hd & Hk & Hbound).
    split; [exact Hc|]. split; [exact Hd|]. split; [exact Hk|]. intros _.
    destruct (Z_lt_le_dec (len (concat cur cur)) duration) as [Hlt2|Hge2].
    + apply Hbound. exact Hlt2.
    + destruct fuel as [|fuel']; simpl in Hloop;
        (destruct (Z.ltb_spec (len (concat cur cur)) duration) as [?|_]; [lia|]);
        injection Hloop as <-; unfold concat, len in *; rewrite length_app in *; lia.
  - injection Hloop as <-. split; [exact Hcyc|]. split; [exact Hge|].
    split; [eauto|lia].
Qed.

Lemma cyclic_refl (source : list Sample) : cyclic source source.
Proof.
  intros j Hj. rewrite Nat.mod_small by exact Hj. reflexivity.
Qed.

Lemma loop_extend_cyclic (fuel : nat) (seg looped : list Sample) (duration : Z) :
  loop_extend fuel seg duration = Ok looped ->
  cyclic seg looped /\ duration <= len looped /\
  (exists k, length looped = (2 ^ k * length seg)%nat) /\
  (len seg < duration -> len looped < 2 * duration).
Proof.
  intros Hloop. apply (loop_extend_from seg duration fuel seg looped 0).
  - simpl. lia.
  - apply cyclic_refl.
  - exact Hloop.
Qed.

(** X8: what the doubling loop returns is the source segment repeated a
    power of two times: chunk [j] of the result is chunk [j mod len] of
    the source.  It reaches the duration, and when it had to loop it stays
    below twice the duration. *)
Theorem loop_extend_repeats (fuel : nat) (seg looped : list Sample) (duration : Z) :
  loop_extend fuel seg duration = Ok looped ->
  cyclic seg looped /\ duration <= len looped /\
  (exists k, length looped = (2 ^ k * length seg)%nat) /\
  (len seg < duration -> len looped < 2 * duration).
Proof. apply loop_extend_cyclic. Qed.

End Joining.

(** Three segments of 8, 12 and 7 ms joined with a crossfade of 5 ms. *)
Lemma join_length_witness :
  0 <= 5 /\
  exists out,
    join (clip "a.wav" 8) [clip "b.wav" 12; clip "c.wav" 7] 5 = Ok out /\
    Audio.len out = 8 + (12 + 7) - 5 * 2.
Proof.
  split; [lia|]. eexists. split; [vm_compute; reflexivity|].
  apply (join_length (clip "a.wav" 8) _ [clip "b.wav" 12; clip "c.wav" 7] 5);
    [lia|vm_compute; reflexivity].
Defined.

(** A first segment of 3 ms cannot take a crossfade of 5 ms. *)
Lemma join_returns_iff_fits_witness :
  0 <= 5 /\
  join (clip "a.wav" 3) [clip "b.wav" 12] 5 = Raise ValueError /\
  ((exists out, join (clip "a.wav" 3) [clip "b.wav" 12] 5 = Ok out) <->
   (5 = 0 \/ [clip "b.wav" 12] = [] \/
    (5 <= Audio.len (clip "a.wav" 3) /\
     Forall (fun segment => 5 <= Audio.len segment) [clip "b.wav" 12]))).
Proof.
  split; [lia|]. split; [reflexivity|].
  apply (join_returns_iff_fits [clip "b.wav" 12] (clip "a.wav" 3) 5). lia.
Defined.

(** A clip of 3 ms looped for 10 ms: 12 ms, the clip four times. *)
Lemma loop_extend_repeats_witness :
  exists looped,
    Audio.loop_extend 5 (clip "a.wav" 3) 10 = Ok looped /\
    Audio.len looped = 12 /\
    cyclic (clip "a.wav" 3) looped /\ 10 <= Audio.len looped /\
    (exists k, length looped = (2 ^ k * length (clip "a.wav" 3))%nat) /\
    (Audio.len (clip "a.wav" 3) < 10 -> Audio.len looped < 2 * 10).
Proof.
  eexists. split; [vm_compute; reflexivity|]. split; [reflexivity|].
  apply (loop_extend_repeats 5). vm_compute. reflexivity.
Defined.

(** ** The segments of a run *)

Lemma sublist_full {A : Type} (l1 l2 : list A) :
  sublist l1 l2 -> (length l2 <= length l1)%nat -> l1 = l2.
Proof.
  induction 1 as [|x l1 l2 Hsub IH|x l1 l2 Hsub IH]; simpl; intros Hlen.
  - reflexivity.
  - f_equal. apply IH. lia.
  - apply sublist_length in Hsub. lia.
Qed.

Lemma planned_duration_first (paragraph : Paragraph)
    (total_duration crossfade_duration duration : Z) :
  planned_duration 0 paragraph total_duration crossfade_duration = Ok duration ->
  raw_duration paragraph total_duration = Ok duration.
Proof.
  unfold planned_duration.
  destruct (raw_duration paragraph total_duration) as [raw| |]; simpl; congruence.
Qed.

Lemma planned_duration_later (i : nat) (paragraph : Paragraph)
    (total_duration crossfade_duration duration : Z) :
  planned_duration (S i) paragraph total_duration crossfade_duration = Ok duration ->
  raw_duration paragraph total_duration = Ok (duration - crossfade_duration).
Proof.
  unfold planned_duration.
  destruct (raw_duration paragraph total_duration) as [raw| |]; simpl; try discriminate.
  intros [= <-]. f_equal. lia.
Qed.

Section Segments.
Context {Sample : Type} `{AudioOps Sample}.
Import Audio.

Lemma cyclic_prefix (source seg : list Sample) (d : Z) :
  cyclic source seg -> cyclic source (prefix seg d).
Proof.
  unfold prefix. intros Hcyc j Hj. rewrite length_take in Hj.
  rewrite lookup_take_lt by lia. apply Hcyc. lia.
Qed.

(** Every segment of the state is the segment prepared for its entry. *)
Lemma process_paragraphs_prepared (fuel : nat) (music_library : MusicLibrary)
    (music_files : gmap string (list Sample)) (total_duration crossfade_duration : Z)
    (all : list Paragraph) (paragraphs : list Paragraph) :
  forall (i : nat) (st st' : plan_state),
    drop i all = paragraphs ->
    Forall2 (prepared music_files all total_duration crossfade_duration)
            (music_segments st) (selected st) ->
    process_paragraphs fuel music_library music_files total_duration crossfade_duration
      i paragraphs st = Ok st' ->
    Forall2 (prepared music_files all total_duration crossfade_duration)
            (music_segments st') (selected st').
Proof.
  induction paragraphs as [|p ps IH]; intros i st st' Hdrop Hst Hrun; simpl in Hrun.
  - injection Hrun as <-. exact Hst.
  - destruct (process_paragraph fuel music_library music_files total_duration
                crossfade_duration i p st) as [st1| |] eqn:Hstep;
      simpl in Hrun; try discriminate Hrun.
    assert (Hp : all !! i = Some p).
    { pose proof (lookup_drop all i 0) as Hl. rewrite Hdrop in Hl. simpl in Hl.
      rewrite Nat.add_0_r in Hl. symmetry. exact Hl. }
    assert (Hdrop' : drop (S i) all = ps).
    { rewrite (drop_S _ _ _ Hp) in Hdrop. injection Hdrop as Hd. exact Hd. }
    apply (IH (S i) st1 st' Hdrop'); [|exact Hrun].
    destruct (process_paragraph_cases _ _ _ _ _ _ _ _ _ Hstep)
      as (d & closest & Hd & Hc & [[-> _]|(f & source & looped & -> & Hfile & Hloop & ->)]);
      [exact Hst|].
    simpl. apply Forall2_app; [exact Hst|]. apply Forall2_cons. split; [|constructor].
    destruct (loop_extend_cyclic fuel source looped d Hloop) as (Hcyc & Hreach & _).
    exists p, source. simpl. split; [exact Hp|]. split; [exact Hd|].
    split; [exact Hfile|]. split; [apply cyclic_prefix; exact Hcyc|].
    intros Hpos. apply len_prefix. lia.
Qed.

(** X9: every segment a run appends is prepared from a loaded clip for a
    paragraph: its entry names the paragraph by its index, the duration is
    the planned duration of that paragraph at that index (so a paragraph
    of index above 0 carries the crossfade length even when it gives the
    first segment), the segment repeats the clip from its start, and it
    has exactly the planned duration when this is not negative. *)
Theorem segments_are_prepared (fuel : nat) (music_library : MusicLibrary)
    (music_files : gmap string (list Sample)) (total_duration crossfade_duration : Z)
    (paragraphs : list Paragraph) (st' : plan_state) :
  process_paragraphs fuel music_library music_files total_duration crossfade_duration
    0 paragraphs initial_state = Ok st' ->
  Forall2 (prepared music_files paragraphs total_duration crossfade_duration)
          (music_segments st') (selected st').
Proof.
  intros Hrun.
  apply (process_paragraphs_prepared fuel music_library music_files total_duration
           crossfade_duration paragraphs paragraphs 0 initial_state st');
    [reflexivity|constructor|exact Hrun].
Qed.

Lemma sumZ_cons (x : Z) (l : list Z) : sumZ (x :: l) = x + sumZ l.
Proof. reflexivity. Qed.

Lemma prepared_lengths (music_files : gmap string (list Sample))
    (paragraphs : list Paragraph) (total_duration crossfade_duration : Z)
    (segments : list (list Sample)) (entries : list (nat * string * Z)) :
  Forall2 (prepared music_files paragraphs total_duration crossfade_duration)
          segments entries ->
  Forall (fun entry => 0 <= entry.2) entries ->
  sumZ (map len segments) = sumZ entries.*2.
Proof.
  induction 1 as [|seg entry segs entries Hprep _ IH]; intros Hpos; [reflexivity|].
  apply Forall_cons in Hpos as [Hentry Hrest].
  change (map len (seg :: segs)) with (len seg :: map len segs).
  rewrite (fmap_cons snd), !sumZ_cons.
  destruct Hprep as (p & source & _ & _ & _ & _ & Hlen).
  rewrite (Hlen Hentry), (IH Hrest). reflexivity.
Qed.

Lemma sumZ_less_crossfade (entries : list (nat * string * Z)) (crossfade_duration : Z) :
  sumZ (map (fun entry => entry.2 - crossfade_duration) entries)
  = sumZ entries.*2 - crossfade_duration * Z.of_nat (length entries).
Proof.
  induction entries as [|entry entries IH]; [simpl; lia|].
  change (map (fun e : nat * string * Z => e.2 - crossfade_duration) (entry :: entries))
    with (entry.2 - crossfade_duration
          :: map (fun e : nat * string * Z => e.2 - crossfade_duration) entries).
  rewrite (fmap_cons snd), !sumZ_cons, IH. cbn [length]. lia.
Qed.

(** X10: the crossfade compensation.  When every paragraph got a segment
    and no planned duration is negative, the join of the segments, if it
    returns, is exactly as long as the raw durations of the paragraphs
    together: the crossfade length added to every paragraph but the first
    is what the joins take away. *)
Theorem joined_length_all_assigned (fuel : nat) (music_library : MusicLibrary)
    (music_files : gmap string (list Sample)) (total_duration crossfade_duration : Z)
    (paragraphs : list Paragraph) (st' : plan_state)
    (first joined : list Sample) (rest : list (list Sample)) :
  0 <= crossfade_duration ->
  process_paragraphs fuel music_library music_files total_duration crossfade_duration
    0 paragraphs initial_state = Ok st' ->
  length (music_segments st') = length paragraphs ->
  Forall (fun entry => 0 <= entry.2) (selected st') ->
  music_segments st' = first :: rest ->
  join first rest crossfade_duration = Ok joined ->
  exists raws,
    Forall2 (fun paragraph raw => raw_duration paragraph total_duration = Ok raw)
            paragraphs raws /\
    len joined = sumZ raws.
Proof.
  intros Hc Hrun Hall Hpos Hsegs Hjoin.
  pose proof (process_paragraphs_prepared fuel music_library music_files total_duration
                crossfade_duration paragraphs paragraphs 0 initial_state st'
                eq_refl (Forall2_nil_2 _ _ _) Hrun) as Hprep.
  destruct (process_paragraphs_initial _ _ _ _ _ _ _ Hrun) as (Hsub & Hlen & _).
  assert (Hidx : indices st' = seq 0 (length paragraphs)).
  { apply sublist_full; [exact Hsub|].
    unfold indices. rewrite !length_fmap, length_seq. lia. }
  unfold indices in Hidx. rewrite Hsegs in Hprep.
  destruct (selected st') as [|entry0 tail] eqn:Hsel; [inversion Hprep|].
  apply Forall2_cons in Hprep as [Hfirst Hrest].
  apply Forall_cons in Hpos as [Hpos0 Hpostail].
  destruct paragraphs as [|p0 ps]; [discriminate Hidx|].
  rewrite !fmap_cons in Hidx.
  change (seq 0 (length (p0 :: ps))) with (0%nat :: seq 1 (length ps)) in Hidx.
  injection Hidx as Hi0 Hitail.
  exists (entry0.2 :: map (fun entry => entry.2 - crossfade_duration) tail). split.
  - apply Forall2_cons. split.
    + destruct Hfirst as (p & source & Hp & Hd & _). rewrite Hi0 in Hp, Hd.
      simpl in Hp. injection Hp as ->. apply (planned_duration_first _ _ _ _ Hd).
    + apply Forall2_fmap_r. apply Forall2_same_length_lookup_2.
      * apply (f_equal length) in Hitail. rewrite !length_fmap, length_seq in Hitail.
        symmetry. exact Hitail.
      * intros k p entry Hp Hentry.
        assert (Hik : entry.1.1 = S k).
        { assert (Hl : tail.*1.*1 !! k = Some entry.1.1)
            by (rewrite !list_lookup_fmap, Hentry; reflexivity).
          rewrite Hitail in Hl. apply lookup_seq in Hl as [Hl _]. lia. }
        destruct (Forall2_lookup_r _ _ _ _ _ Hrest Hentry) as (seg & _ & Hseg).
        destruct Hseg as (p' & source & Hp' & Hd & _). rewrite Hik in Hp', Hd.
        simpl in Hp'. rewrite Hp in Hp'. injection Hp' as <-.
        apply (planned_duration_later _ _ _ _ _ Hd).
  - rewrite (join_len rest first joined crossfade_duration Hc Hjoin).
    destruct Hfirst as (p & source & _ & _ & _ & _ & Hlen0).
    rewrite (Hlen0 Hpos0), (prepared_lengths _ _ _ _ _ _ Hrest Hpostail).
    rewrite sumZ_cons, sumZ_less_crossfade.
    rewrite (Forall2_length _ _ _ Hrest). lia.
Qed.

(** X11: a run never appends more segments than there are paragraphs,
    nor more than there are loaded clips. *)
Theorem segments_bounded (fuel : nat) (music_library : MusicLibrary)
    (music_files : gmap string (list Sample)) (total_duration crossfade_duration : Z)
    (paragraphs : list Paragraph) (st' : plan_state) :
  process_paragraphs fuel music_library music_files total_duration crossfade_duration
    0 paragraphs initial_state = Ok st' ->
  (length (music_segments st') <= length paragraphs)%nat /\
  (length (music_segments st') <= size music_files)%nat.
Proof.
  intros Hrun.
  destruct (process_paragraphs_initial _ _ _ _ _ _ _ Hrun)
    as (Hsub & Hlen & _ & Hnd & Hloaded).
  split.
  - apply sublist_length in Hsub. unfold indices in Hsub.
    rewrite !length_fmap, length_seq in Hsub. lia.
  - rewrite Hlen. unfold clips in *.
    replace (length (selected st')) with (length (selected st').*1.*2)
      by (rewrite !length_fmap; reflexivity).
    rewrite <- (size_list_to_set (C := gset string)) by exact Hnd.
    rewrite <- (size_dom (D := gset string) music_files).
    apply subseteq_size. intros f Hf. apply elem_of_list_to_set in Hf.
    apply elem_of_dom. rewrite Forall_forall in Hloaded. exact (Hloaded f Hf).
Qed.

(** When no file of the library exists, every paragraph is skipped. *)
Lemma process_paragraphs_no_file (fuel : nat) (music_library : MusicLibrary)
    (music_files : gmap string (list Sample)) (total_duration crossfade_duration : Z)
    (paragraphs : list Paragraph) :
  (forall music_file, music_files !! music_file = None) ->
  durations_computed total_duration paragraphs = true ->
  distances_computed paragraphs music_library = true ->
  forall (i : nat) (st : plan_state),
    process_paragraphs fuel music_library music_files total_duration crossfade_duration
      i paragraphs st = Ok st.
Proof.
  intros Hnone. induction paragraphs as [|p ps IH]; intros Hdur Hdist i st; [reflexivity|].
  simpl in Hdur, Hdist.
  apply andb_true_iff in Hdur as [Hp Hdur]. apply andb_true_iff in Hdist as [Hd Hdist].
  destruct (raw_duration p total_duration) as [raw| |] eqn:Hraw; try discriminate Hp.
  destruct (find_closest_loop_returns p (used_music st) music_library Hd infinity None)
    as [closest Hclosest].
  simpl.
  rewrite (process_paragraph_skip fuel music_library music_files total_duration
             crossfade_duration i p st
             (if (0 <? i)%nat then raw + crossfade_duration else raw) closest).
  - simpl. apply IH; assumption.
  - unfold planned_duration. rewrite Hraw. reflexivity.
  - exact Hclosest.
  - destruct closest as [f|]; [right; eauto|left; reflexivity].
Qed.

(** X12: when none of the files named by the library exists, the result
    is the silent buffer of the target length, with any fuel, provided the
    raw durations and the distances are computed: every paragraph is
    skipped without an error. *)
Theorem no_file_gives_silence (fuel : nat) (text_emotions : list Paragraph)
    (music_library : MusicLibrary) (fs : FileSystem)
    (total_duration crossfade_duration fade_duration : Z) :
  (forall music_file, music_file ∈ music_library.*1 -> fs !! music_file = None) ->
  durations_computed total_duration text_emotions = true ->
  distances_computed text_emotions music_library = true ->
  create_music_sequence fuel text_emotions music_library fs
    total_duration crossfade_duration fade_duration = Ok (silent total_duration).
Proof.
  intros Hfs Hdur Hdist. unfold create_music_sequence.
  rewrite process_paragraphs_no_file; [reflexivity| |exact Hdur|exact Hdist].
  intros f. destruct (load_music_files music_library fs !! f) as [a|] eqn:Hf; [|reflexivity].
  unfold load_music_files in Hf. apply load_music_files_from in Hf.
  - destruct Hf as [[Hin Hsome]|Hempty].
    + rewrite (Hfs f Hin) in Hsome. discriminate Hsome.
    + rewrite lookup_empty in Hempty. discriminate Hempty.
  - intros k a'. rewrite lookup_empty. discriminate.
Qed.

End Segments.

(** ** Skipped paragraphs and the order of the segments *)

(** C5: a paragraph for which the matcher returns [None], or a name that
    is not among the loaded clips, is skipped: the iteration returns the
    state it got, so no segment is appended and no name is added to
    [used_music].  The segments of a run are in paragraph order: the
    paragraph indices recorded for them increase (they are a sublist of 0,
    1, ...), and the segment at each position of [music_segments] is the
    one prepared for the paragraph recorded at that position, from the
    clip matched to it and with its planned duration.  Paragraph [i] has a
    segment exactly when it was not skipped. *)
Theorem skipped_paragraph_leaves_state {Sample : Type} `{AudioOps Sample}
    (fuel : nat) (music_library : MusicLibrary)
    (music_files : gmap string (list Sample))
    (total_duration crossfade_duration : Z) :
  (forall i paragraph st duration closest_music,
     planned_duration i paragraph total_duration crossfade_duration = Ok duration ->
     find_closest_music (emotions paragraph) music_library (used_music st)
       = Ok closest_music ->
     (closest_music = None \/
      exists music_file, closest_music = Some music_file /\
                         music_files !! music_file = None) ->
     process_paragraph fuel music_library music_files total_duration crossfade_duration
       i paragraph st = Ok st) /\
  (forall ps st',
     process_paragraphs fuel music_library music_files total_duration crossfade_duration
       0 ps initial_state = Ok st' ->
     sublist (indices st') (seq 0 (length ps)) /\
     length (music_segments st') = length (selected st') /\
     Forall2 (prepared music_files ps total_duration crossfade_duration)
             (music_segments st') (selected st')) /\
  (forall ps1 paragraph ps2 st',
     process_paragraphs fuel music_library music_files total_duration crossfade_duration
       0 (ps1 ++ paragraph :: ps2) initial_state = Ok st' ->
     exists st1 closest_music,
       process_paragraphs fuel music_library music_files total_duration crossfade_duration
         0 ps1 initial_state = Ok st1 /\
       find_closest_music (emotions paragraph) music_library (used_music st1)
         = Ok closest_music /\
       (length ps1 ∈ indices st' <->
        exists music_file, closest_music = Some music_file /\
                           is_Some (music_files !! music_file))).
Proof.
  split; [|split].
  - intros i p st d c Hd Hc Hskip. exact (process_paragraph_skip _ _ _ _ _ _ _ _ _ _ Hd Hc Hskip).
  - intros ps st' Hrun.
    destruct (process_paragraphs_initial _ _ _ _ _ _ _ Hrun) as (Hsub & Hlen & _).
    split; [exact Hsub|]. split; [exact Hlen|].
    apply (process_paragraphs_prepared fuel music_library music_files total_duration
             crossfade_duration ps ps 0 initial_state st');
      [reflexivity|constructor|exact Hrun].
  - intros ps1 p ps2 st' Hrun. rewrite process_paragraphs_app in Hrun.
    destruct (process_paragraphs fuel music_library music_files total_duration
                crossfade_duration 0 ps1 initial_state) as [st1| |] eqn:Hrun1;
      simpl in Hrun; try discriminate Hrun.
    destruct (process_paragraph fuel music_library music_files total_duration
                crossfade_duration (length ps1) p st1) as [st2| |] eqn:Hstep;
      simpl in Hrun; try discriminate Hrun.
    destruct (process_paragraphs_initial _ _ _ _ _ _ _ Hrun1) as (Hsub1 & _).
    destruct (process_paragraphs_spec _ _ _ _ _ _ _ _ _ Hrun)
      as (new & segs & Hsel & _ & _ & Hsub2 & _).
    destruct (process_paragraph_cases _ _ _ _ _ _ _ _ _ Hstep)
      as (d & closest & Hd & Hc & Hcase).
    exists st1, closest. split; [reflexivity|]. split; [exact Hc|].
    assert (Hnot1 : length ps1 ∉ indices st1).
    { intros Hin. pose proof (sublist_seq_bounds _ _ _ _ Hsub1 Hin). lia. }
    assert (Hnot2 : length ps1 ∉ new.*1.*1).
    { intros Hin. pose proof (sublist_seq_bounds _ _ _ _ Hsub2 Hin). lia. }
    unfold indices in *. rewrite Hsel, !fmap_app, elem_of_app.
    destruct Hcase as [[-> Hskip]|(f & clip0 & looped & -> & Hfile & Hloop & ->)].
    + split; [intros [?|?]; contradiction|].
      intros (f & -> & Hsome). destruct Hskip as [[=]|(g & [= <-] & Hnone)].
      rewrite Hnone in Hsome. destruct Hsome as [? [=]].
    + split; [intros _|intros _].
      * exists f. split; [reflexivity|]. rewrite Hfile. eexists. reflexivity.
      * left. simpl. rewrite !fmap_app, elem_of_app. right. simpl.
        apply list_elem_of_singleton. reflexivity.
Qed.

(** Three paragraphs over a library whose two clips are loaded: the third
    finds no unused clip and is skipped; the two segments are those of
    paragraphs 0 and 1, in this order. *)
Lemma skipped_paragraph_leaves_state_witness :
  exists st',
    process_paragraphs 4 library_ab files_ab 60 5
      0 [first_half; second_half; second_half] initial_state = Ok st' /\
    selected st' = [(0%nat, "a.wav"%string, 30); (1%nat, "b.wav"%string, 35)] /\
    sublist (indices st') (seq 0 3) /\
    length (music_segments st') = length (selected st') /\
    Forall2 (prepared files_ab [first_half; second_half; second_half] 60 5)
            (music_segments st') (selected st').
Proof.
  eexists. split; [vm_compute; reflexivity|]. split; [reflexivity|].
  apply (proj1 (proj2 (skipped_paragraph_leaves_state 4 library_ab files_ab 60 5))
           [first_half; second_half; second_half]).
  vm_compute. reflexivity.
Defined.

(** ** The target length and the mix *)

Section Normalising.
Context {Sample : Type} `{AudioOps Sample}.
Import Audio.

(** X13: the adjustment to the target length keeps the audio in place: the
    result is the first [total_duration] milliseconds of the audio followed
    by silence. *)
Theorem adjust_keeps_audio (final_audio : list Sample) (total_duration : Z) :
  0 <= total_duration ->
  adjust final_audio total_duration
  = take (Z.to_nat total_duration)
         (final_audio
          ++ replicate (Z.to_nat total_duration - length final_audio)%nat silence).
Proof.
  intros Ht. unfold adjust, len.
  destruct (Z.gtb_spec (Z.of_nat (length final_audio)) total_duration) as [Hgt|Hle].
  - replace (Z.to_nat total_duration - length final_audio)%nat with 0%nat by lia.
    simpl. rewrite app_nil_r. unfold prefix, len.
    destruct (Z.ltb_spec total_duration 0) as [?|_]; [lia|].
    rewrite Z.min_l by lia.
    destruct (Z.ltb_spec total_duration 0) as [?|_]; [lia|]. reflexivity.
  - destruct (Z.ltb_spec (Z.of_nat (length final_audio)) total_duration) as [Hlt|Hge].
    + unfold concat, silent. rewrite take_ge.
      * f_equal. f_equal. lia.
      * rewrite length_app, length_replicate. lia.
    + replace (Z.to_nat total_duration - length final_audio)%nat with 0%nat by lia.
      simpl. rewrite app_nil_r. rewrite take_ge by lia. reflexivity.
Qed.

Lemma fit_ambient_fitted (fuel : nat) (ambient_sound fitted : list Sample) :
  fit_ambient fuel ambient_sound = Ok fitted ->
  len fitted = 60000 /\ cyclic ambient_sound fitted.
Proof.
  unfold fit_ambient.
  destruct (Z.gtb_spec (len ambient_sound) 60000) as [Hgt|Hle].
  - intros [= <-]. split; [apply len_prefix; lia|].
    apply cyclic_prefix, cyclic_refl.
  - destruct (Z.ltb_spec (len ambient_sound) 60000) as [Hlt|Hge].
    + destruct (loop_extend fuel ambient_sound 60000) as [looped| |] eqn:Hloop;
        simpl; try discriminate.
      intros [= <-].
      destruct (loop_extend_cyclic fuel ambient_sound looped 60000 Hloop)
        as (Hcyc & Hreach & _).
      split; [apply len_prefix; lia|]. apply cyclic_prefix. exact Hcyc.
    + intros [= <-]. split; [lia|apply cyclic_refl].
Qed.

(** X14: the ambient sound fitted to 60 seconds is exactly 60000 ms long
    and is the ambient file repeated from its start: chunk [j] is chunk
    [j mod len] of the file. *)
Theorem fit_ambient_repeats (fuel : nat) (ambient_sound fitted : list Sample) :
  fit_ambient fuel ambient_sound = Ok fitted ->
  len fitted = 60000 /\ cyclic ambient_sound fitted.
Proof. apply fit_ambient_fitted. Qed.

(** What [create_music_sequence] returns has the target length, for a fade
    that is positive and no longer than the target. *)
Lemma create_music_sequence_len (fuel : nat) (text_emotions : list Paragraph)
    (music_library : MusicLibrary) (fs : FileSystem)
    (total_duration crossfade_duration fade_duration : Z) (final_audio : list Sample) :
  0 < fade_duration <= total_duration ->
  create_music_sequence fuel text_emotions music_library fs
    total_duration crossfade_duration fade_duration = Ok final_audio ->
  len final_audio = total_duration.
Proof.
  intros Hf. unfold create_music_sequence.
  destruct (process_paragraphs _ _ _ _ _ _ _ _) as [st| |]; simpl; try discriminate.
  destruct (music_segments st) as [|first rest].
  - intros [= <-]. apply len_silent. lia.
  - rewrite assemble_faded by lia.
    destruct (join first rest crossfade_duration) as [joined| |]; simpl; try discriminate.
    intros [= <-]. apply len_faded_adjust. lia.
Qed.

(** Two segments of one length are overlaid chunk by chunk. *)
Lemma overlay_same_length (seg1 seg2 : list Sample) :
  length seg1 = length seg2 -> overlay seg1 seg2 = zip_with audioop_add seg1 seg2.
Proof.
  intros Hlen. unfold overlay. rewrite <- Hlen, Nat.min_id.
  rewrite drop_all, app_nil_r, firstn_all.
  rewrite take_ge by lia. reflexivity.
Qed.

(** X15: with an ambient file, the output of [main] mixes the music and
    the ambient sound over the whole of its 60000 ms: chunk by chunk, the
    music at its gain added to the fitted and faded ambient sound at its
    gain. *)
Theorem main_mixes_throughout (fuel : nat) (log10_pos : float -> float)
    (text_emotions : list Paragraph) (music_library : MusicLibrary) (fs : FileSystem)
    (ambience : list (list Sample)) (choice : nat) (ambient_volume music_volume : float)
    (ambient_sound : list Sample) (out : exported) :
  main fuel log10_pos text_emotions music_library fs ambience choice
    ambient_volume music_volume = Ok out ->
  ambience !! (choice `mod` length ambience)%nat = Some ambient_sound ->
  exists fitted,
    fit_ambient fuel ambient_sound = Ok fitted /\
    final_output_audio out
    = zip_with audioop_add
        (apply_gain (generated_music out) (volume_to_db log10_pos music_volume))
        (apply_gain (fade_out 3000 (fade_in 3000 fitted))
                    (volume_to_db log10_pos ambient_volume)) /\
    len (final_output_audio out) = 60000.
Proof.
  intros Hmain Hchoice. unfold main in Hmain.
  destruct (create_music_sequence fuel text_emotions music_library fs 60000 5000 3000)
    as [final_audio| |] eqn:Hseq; simpl in Hmain; try discriminate Hmain.
  rewrite Hchoice in Hmain.
  destruct (mix fuel log10_pos final_audio ambient_sound ambient_volume music_volume)
    as [mixed| |] eqn:Hmix; simpl in Hmain; try discriminate Hmain.
  injection Hmain as <-. simpl.
  apply mix_inv in Hmix as (fitted & Hfit & ->).
  assert (Hlen : len final_audio = 60000)
    by (eapply create_music_sequence_len; [|exact Hseq]; lia).
  destruct (fit_ambient_fitted _ _ _ Hfit) as [Hfitted _].
  exists fitted. split; [exact Hfit|]. split.
  - apply overlay_same_length. unfold apply_gain. rewrite !length_map.
    pose proof (len_fade_in 3000 fitted) as Hfi.
    pose proof (len_fade_out 3000 (fade_in 3000 fitted)) as Hfo.
    unfold len in *. lia.
  - rewrite len_overlay, len_apply_gain. exact Hlen.
Qed.

End Normalising.

(** ** The further properties on small runs *)

(** The two halves of a 60 ms track over the two loaded clips. *)
Lemma segments_are_prepared_witness :
  exists st',
    process_paragraphs 4 library_ab files_ab 60 5 0 [first_half; second_half]
      initial_state = Ok st' /\
    selected st' = [(0%nat, "a.wav"%string, 30); (1%nat, "b.wav"%string, 35)] /\
    Forall2 (prepared files_ab [first_half; second_half] 60 5)
            (music_segments st') (selected st').
Proof.
  eexists. split; [vm_compute; reflexivity|]. split; [reflexivity|].
  apply (segments_are_prepared 4 library_ab files_ab 60 5 [first_half; second_half]).
  vm_compute. reflexivity.
Defined.

(** Segments of 30 and 35 ms joined with a crossfade of 5 ms: 60 ms, the
    two raw durations of 30 ms. *)
Lemma joined_length_all_assigned_witness :
  0 <= 5 /\
  exists st' first rest joined,
    process_paragraphs 4 library_ab files_ab 60 5 0 [first_half; second_half]
      initial_state = Ok st' /\
    length (music_segments st') = length [first_half; second_half] /\
    Forall (fun entry => 0 <= entry.2) (selected st') /\
    music_segments st' = first :: rest /\
    join first rest 5 = Ok joined /\
    Audio.len joined = 60 /\
    exists raws,
      Forall2 (fun paragraph raw => raw_duration paragraph 60 = Ok raw)
              [first_half; second_half] raws /\
      Audio.len joined = sumZ raws.
Proof.
  split; [lia|]. eexists _, _, _, _.
  split; [vm_compute; reflexivity|]. split; [reflexivity|].
  split; [repeat (apply Forall_cons; split; [simpl; lia|]); apply Forall_nil_2|].
  split; [reflexivity|]. split; [vm_compute; reflexivity|]. split; [reflexivity|].
  eapply (joined_length_all_assigned 4 library_ab files_ab 60 5 [first_half; second_half]).
  - lia.
  - vm_compute. reflexivity.
  - reflexivity.
  - repeat (apply Forall_cons; split; [simpl; lia|]). apply Forall_nil_2.
  - reflexivity.
  - vm_compute. reflexivity.
Defined.

(** Three paragraphs, two loaded clips: two segments. *)
Lemma segments_bounded_witness :
  exists st',
    process_paragraphs 4 library_ab files_ab 60 5 0 [first_half; second_half; second_half]
      initial_state = Ok st' /\
    length (music_segments st') = 2%nat /\
    (length (music_segments st') <= length [first_half; second_half; second_half])%nat /\
    (length (music_segments st') <= size files_ab)%nat.
Proof.
  eexists. split; [vm_compute; reflexivity|]. split; [reflexivity|].
  apply (segments_bounded 4 library_ab files_ab 60 5 [first_half; second_half; second_half]).
  vm_compute. reflexivity.
Defined.

(** The music_library directory is empty. *)
Lemma no_file_gives_silence_witness :
  (forall music_file, music_file ∈ library_ab.*1 ->
                      (∅ : gmap string (list chunk)) !! music_file = None) /\
  durations_computed 60 [first_half; second_half] = true /\
  distances_computed [first_half; second_half] library_ab = true /\
  create_music_sequence 0 [first_half; second_half] library_ab
    (∅ : gmap string (list chunk)) 60 5 3 = Ok (Audio.silent 60).
Proof.
  split; [intros f _; apply lookup_empty|]. split; [reflexivity|]. split; [reflexivity|].
  apply no_file_gives_silence;
    [intros f _; apply (lookup_empty (M := gmap string))|reflexivity|reflexivity].
Defined.

(** A 3 ms buffer adjusted to 5 ms. *)
Lemma adjust_keeps_audio_witness :
  0 <= 5 /\
  adjust (clip "a.wav" 3) 5
  = take (Z.to_nat 5)
         (clip "a.wav" 3 ++ replicate (Z.to_nat 5 - length (clip "a.wav" 3))%nat silence).
Proof. split; [lia|]. apply (adjust_keeps_audio (clip "a.wav" 3) 5). lia. Defined.

(** An ambient file of 3 ms. *)
Lemma fit_ambient_repeats_witness :
  exists fitted,
    fit_ambient (Z.to_nat 60000) (clip "rain.wav" 3) = Ok fitted /\
    Audio.len fitted = 60000 /\ cyclic (clip "rain.wav" 3) fitted.
Proof.
  destruct (fit_ambient_returns (clip "rain.wav" 3)) as (fitted & Hfit & _);
    [discriminate|].
  exists fitted. split; [apply Hfit; lia|].
  apply (fit_ambient_repeats (Z.to_nat 60000)). apply Hfit. lia.
Defined.

(** The two halves of the 60 s track, the two loaded clips, one ambient
    file of 3 ms, both volumes 1.0 (whose logarithm is 0). *)
Lemma main_mixes_throughout_witness :
  exists fuel out,
    main fuel (fun _ => 0%float) [first_half; second_half] library_ab fs_ab
      [clip "rain.wav" 3] 0 1%float 1%float = Ok out /\
    [clip "rain.wav" 3] !! (0 `mod` length [clip "rain.wav" 3])%nat
      = Some (clip "rain.wav" 3) /\
    exists fitted,
      fit_ambient fuel (clip "rain.wav" 3) = Ok fitted /\
      final_output_audio out
      = zip_with audioop_add
          (Audio.apply_gain (generated_music out)
                            (volume_to_db (fun _ => 0%float) 1%float))
          (Audio.apply_gain (Audio.fade_out 3000 (Audio.fade_in 3000 fitted))
                            (volume_to_db (fun _ => 0%float) 1%float)) /\
      Audio.len (final_output_audio out) = 60000.
Proof.
  destruct (main_returns (fun _ => 0%float) [first_half; second_half] library_ab fs_ab
              [clip "rain.wav" 3] 0 1%float 1%float)
    as (enough & out & Hmain & _).
  - reflexivity.
  - reflexivity.
  - exact fs_ab_nonempty.
  - apply Forall_singleton. discriminate.
  - exists enough, out. split; [apply Hmain; lia|]. split; [reflexivity|].
    apply (main_mixes_throughout enough (fun _ => 0%float) [first_half; second_half]
             library_ab fs_ab [clip "rain.wav" 3] 0 1%float 1%float);
      [apply Hmain; lia|reflexivity].
Defined.
